(** * Nox storefront script: cart, theme, catalogue loader and form validator

    A shallow embedding of [src/script.js].  The script keeps one global
    [state] object, mirrors two of its fields into [localStorage], and
    reacts to DOM events.  Every handler runs to completion, so a handler
    is a function from the world before the event to the world after it.

    Conventions of the embedding:
    - JavaScript numbers that the script only ever uses as counters
      ([quantity], [currentPage], the cart total) are mathematical
      integers [Z]; prices are carried in hundredths (149.99 is 14999) and
      no function of the script computes with them;
    - [localStorage] is a finite map from keys to strings, [getItem] being
      the lookup ([None] is JavaScript's [null]);
    - of the DOM only the nodes the script reads back or a claim talks
      about are kept (attributes, text contents, the toast container);
      timers that merely revert a CSS transform are left out. *)

From Stdlib Require Import ZArith List String Ascii Bool Lia.
From Stdlib Require Import DecimalString DecimalZ.
From stdpp Require Import base option list gmap strings.

Local Open Scope Z_scope.
Local Open Scope string_scope.
Local Open Scope list_scope.

(** ** Data model *)

Module Product.
(** One record of [mockProducts] (script.js:309-362). *)
Record t := mk {
  id : string;
  name : string;
  description : string;
  price : Z;
  image : string;
  badge : option string;
  category : string
}.
End Product.

(** A cart line item is the object [{...product, quantity: n}]
    (script.js:455-458): the product's own fields and a counter. *)
Record CartLineItem := mkItem {
  item : Product.t;
  quantity : Z
}.

Definition item_id (i : CartLineItem) : string := Product.id (item i).

(** The global [state] object (script.js:2-9). *)
Record State := mkState {
  theme : string;
  cart : list CartLineItem;
  products : list Product.t;
  isLoading : bool;
  currentPage : Z
}.

Definition productsPerPage : Z := 6.

(** A toast appended to [elements.toastContainer]: message and type. *)
Record Toast := mkToast {
  toast_message : string;
  toast_type : string
}.

(** The "load more" button, when the page has one. *)
Record Button := mkButton {
  disabled : bool;
  textContent : string;
  hidden : bool
}.

(** The part of the document the handlers write to.  The nodes the
    script dereferences without a test ([#cart-count],
    [#toast-container], [#products-grid]) are taken to be in the page;
    the ones it tests for are optional. *)
Record Dom := mkDom {
  dataTheme : option string;      (* documentElement's data-theme attribute *)
  themeIcon : option string;      (* text of #theme-icon; None: no such node *)
  cartCount : string;             (* text of #cart-count *)
  toastContainer : list Toast;    (* children of #toast-container, oldest first *)
  loadMoreBtn : option Button;    (* #load-more; None: no such node *)
  productsGrid : list Product.t   (* the product of every card in #products-grid *)
}.

Record World := mkWorld {
  state : State;
  localStorage : gmap string string;
  dom : Dom
}.

(** Field updates, written out once. *)
Definition set_theme (v : string) (s : State) : State :=
  mkState v (cart s) (products s) (isLoading s) (currentPage s).
Definition set_cart (v : list CartLineItem) (s : State) : State :=
  mkState (theme s) v (products s) (isLoading s) (currentPage s).
Definition set_products (v : list Product.t) (s : State) : State :=
  mkState (theme s) (cart s) v (isLoading s) (currentPage s).
Definition set_isLoading (v : bool) (s : State) : State :=
  mkState (theme s) (cart s) (products s) v (currentPage s).
Definition set_currentPage (v : Z) (s : State) : State :=
  mkState (theme s) (cart s) (products s) (isLoading s) v.

Definition set_dataTheme (v : option string) (d : Dom) : Dom :=
  mkDom v (themeIcon d) (cartCount d) (toastContainer d) (loadMoreBtn d) (productsGrid d).
Definition set_themeIcon (v : option string) (d : Dom) : Dom :=
  mkDom (dataTheme d) v (cartCount d) (toastContainer d) (loadMoreBtn d) (productsGrid d).
Definition set_cartCount (v : string) (d : Dom) : Dom :=
  mkDom (dataTheme d) (themeIcon d) v (toastContainer d) (loadMoreBtn d) (productsGrid d).
Definition set_toastContainer (v : list Toast) (d : Dom) : Dom :=
  mkDom (dataTheme d) (themeIcon d) (cartCount d) v (loadMoreBtn d) (productsGrid d).
Definition set_loadMoreBtn (v : option Button) (d : Dom) : Dom :=
  mkDom (dataTheme d) (themeIcon d) (cartCount d) (toastContainer d) v (productsGrid d).
Definition set_productsGrid (v : list Product.t) (d : Dom) : Dom :=
  mkDom (dataTheme d) (themeIcon d) (cartCount d) (toastContainer d) (loadMoreBtn d) v.

Definition on_state (f : State -> State) (w : World) : World :=
  mkWorld (f (state w)) (localStorage w) (dom w).
Definition on_dom (f : Dom -> Dom) (w : World) : World :=
  mkWorld (state w) (localStorage w) (f (dom w)).
Definition setItem (key value : string) (w : World) : World :=
  mkWorld (state w) (<[key := value]> (localStorage w)) (dom w).
Definition getItem (key : string) (w : World) : option string :=
  localStorage w !! key.

(** [Number.prototype.toString()] on an integer: decimal digits, a
    leading minus sign for negatives. *)
Definition number_toString (n : Z) : string :=
  NilZero.string_of_int (Z.to_int n).

(** ** The platform's JSON object

    [JSON.stringify] and [JSON.parse] belong to the browser, not to the
    script.  They are modelled on the values the script can hand to them:
    [null], booleans, integers, strings, arrays and objects (an object
    lists its members in insertion order).  [stringify] emits the compact
    text of ECMA-262 25.5.2; [parse] reads that compact grammar back and
    answers [None] where the browser throws a [SyntaxError].  White space
    between tokens, fractions, exponents and the escapes [\uXXXX] beyond
    [\u00ff] are not part of the model. *)

Module JSON.

#[local] Unset Elimination Schemes.
Inductive value :=
| JNull
| JBool (b : bool)
| JNumber (n : Z)
| JString (s : string)
| JArray (elements : list value)
| JObject (members : list (string * value)).
#[local] Set Elimination Schemes.

(** ToBoolean on these values: what [v || d] tests. *)
Definition truthy (v : value) : bool :=
  match v with
  | JNull => false
  | JBool b => b
  | JNumber n => negb (n =? 0)%Z
  | JString s => negb (String.eqb s EmptyString)
  | JArray _ => true
  | JObject _ => true
  end.

Definition chars (s : string) : list ascii := list_ascii_of_string s.

(** The double quote, character 34. *)
Definition dquote : ascii := ascii_of_N 34.

Definition hex_digit (n : N) : ascii :=
  ascii_of_N (if (n <? 10)%N then 48 + n else 87 + n)%N.

Definition hex_value (c : ascii) : option N :=
  let n := N_of_ascii c in
  if ((48 <=? n) && (n <=? 57))%N then Some (n - 48)%N
  else if ((97 <=? n) && (n <=? 102))%N then Some (n - 87)%N
  else if ((65 <=? n) && (n <=? 70))%N then Some (n - 55)%N
  else None.

(** QuoteJSONString: the two-character escapes, [\u00xx] for the other
    control characters, every other character as it is. *)
Definition escape_char (c : ascii) : list ascii :=
  let n := N_of_ascii c in
  if (n =? 34)%N then chars "\" ++ [dquote] else
  if (n =? 92)%N then chars "\\" else
  if (n =? 8)%N then chars "\b" else
  if (n =? 9)%N then chars "\t" else
  if (n =? 10)%N then chars "\n" else
  if (n =? 12)%N then chars "\f" else
  if (n =? 13)%N then chars "\r" else
  if (n <? 32)%N then chars "\u00" ++ [hex_digit (n / 16); hex_digit (n mod 16)]
  else [c].

Definition quote (s : string) : list ascii :=
  [dquote] ++ flat_map escape_char (chars s) ++ [dquote].

Definition print_number (n : Z) : list ascii := chars (number_toString n).

Fixpoint print (v : value) : list ascii :=
  match v with
  | JNull => chars "null"
  | JBool true => chars "true"
  | JBool false => chars "false"
  | JNumber n => print_number n
  | JString s => quote s
  | JArray l =>
      chars "[" ++
      (fix elements (l : list value) : list ascii :=
         match l with
         | [] => []
         | v :: l' =>
             print v ++ match l' with [] => [] | _ => chars "," ++ elements l' end
         end) l ++
      chars "]"
  | JObject m =>
      chars "{" ++
      (fix members (m : list (string * value)) : list ascii :=
         match m with
         | [] => []
         | (k, v) :: m' =>
             quote k ++ chars ":" ++ print v ++
             match m' with [] => [] | _ => chars "," ++ members m' end
         end) m ++
      chars "}"
  end.



Definition stringify (v : value) : string := string_of_list_ascii (print v).

(** *** Reading the text back *)

Definition is_char (c : ascii) (s : string) : bool :=
  String.eqb (String c EmptyString) s.
Definition is_dquote (c : ascii) : bool := Ascii.eqb c dquote.

Definition number_char (c : ascii) : bool :=
  let n := N_of_ascii c in
  ((n =? 45) || ((48 <=? n) && (n <=? 57)))%N.

Fixpoint span_number (s : list ascii) : list ascii * list ascii :=
  match s with
  | c :: r =>
      if number_char c then let '(tok, rest) := span_number r in (c :: tok, rest)
      else ([], s)
  | [] => ([], [])
  end.


(** A number token is accepted when it is the decimal text of an integer
    in the form [stringify] writes it (no leading zeros, no bare sign). *)
Definition parse_number (s : list ascii) : option (Z * list ascii) :=
  let '(tok, rest) := span_number s in
  match NilZero.int_of_string (string_of_list_ascii tok) with
  | Some d =>
      let n := Z.of_int d in
      if String.eqb (number_toString n) (string_of_list_ascii tok)
      then Some (n, rest) else None
  | None => None
  end.

(** The characters of a string literal after its opening quote, up to and
    including the closing quote. *)
Fixpoint parse_string (s : list ascii) : option (list ascii * list ascii) :=
  match s with
  | [] => None
  | c :: r =>
      if is_dquote c then Some ([], r)
      else if is_char c "\" then
        match r with
        | e :: r1 =>
            if is_char e "u" then
              match r1 with
              | h1 :: h2 :: h3 :: h4 :: r2 =>
                  match hex_value h1, hex_value h2, hex_value h3, hex_value h4 with
                  | Some 0%N, Some 0%N, Some a, Some b =>
                      match parse_string r2 with
                      | Some (t, rest) => Some (ascii_of_N (16 * a + b) :: t, rest)
                      | None => None
                      end
                  | _, _, _, _ => None
                  end
              | _ => None
              end
            else
              let simple (x : ascii) :=
                match parse_string r1 with
                | Some (t, rest) => Some (x :: t, rest)
                | None => None
                end in
              if is_dquote e then simple e
              else if is_char e "\" then simple e
              else if is_char e "/" then simple e
              else if is_char e "b" then simple (ascii_of_N 8)
              else if is_char e "t" then simple (ascii_of_N 9)
              else if is_char e "n" then simple (ascii_of_N 10)
              else if is_char e "f" then simple (ascii_of_N 12)
              else if is_char e "r" then simple (ascii_of_N 13)
              else None
        | [] => None
        end
      else if (N_of_ascii c <? 32)%N then None
      else
        match parse_string r with
        | Some (t, rest) => Some (c :: t, rest)
        | None => None
        end
  end.

Fixpoint strip (p s : list ascii) : option (list ascii) :=
  match p, s with
  | [], _ => Some s
  | a :: p', b :: s' => if Ascii.eqb a b then strip p' s' else None
  | _ :: _, [] => None
  end.

Section Compound.
(** The loops of an array and of an object, over the parser of one
    value; [n] bounds the number of elements read. *)
Variable parse_value : list ascii -> option (value * list ascii).

Fixpoint parse_elements (n : nat) (s : list ascii) : option (list value * list ascii) :=
  match n with
  | O => None
  | S n' =>
      match parse_value s with
      | Some (v, c :: r) =>
          if is_char c "]" then Some ([v], r)
          else if is_char c "," then
            match parse_elements n' r with
            | Some (l, rest) => Some (v :: l, rest)
            | None => None
            end
          else None
      | _ => None
      end
  end.

Definition parse_member (s : list ascii) : option ((string * value) * list ascii) :=
  match s with
  | q :: r =>
      if is_dquote q then
        match parse_string r with
        | Some (k, c :: r1) =>
            if is_char c ":" then
              match parse_value r1 with
              | Some (v, rest) => Some ((string_of_list_ascii k, v), rest)
              | None => None
              end
            else None
        | _ => None
        end
      else None
  | [] => None
  end.

Fixpoint parse_members (n : nat) (s : list ascii) : option (list (string * value) * list ascii) :=
  match n with
  | O => None
  | S n' =>
      match parse_member s with
      | Some (kv, c :: r) =>
          if is_char c "}" then Some ([kv], r)
          else if is_char c "," then
            match parse_members n' r with
            | Some (m, rest) => Some (kv :: m, rest)
            | None => None
            end
          else None
      | _ => None
      end
  end.
End Compound.

Fixpoint parse_value (fuel : nat) (s : list ascii) : option (value * list ascii) :=
  match fuel with
  | O => None
  | S fuel' =>
      match s with
      | [] => None
      | c :: r =>
          if is_char c "n" then option_map (pair JNull) (strip (chars "ull") r)
          else if is_char c "t" then option_map (pair (JBool true)) (strip (chars "rue") r)
          else if is_char c "f" then option_map (pair (JBool false)) (strip (chars "alse") r)
          else if is_dquote c then
            match parse_string r with
            | Some (t, rest) => Some (JString (string_of_list_ascii t), rest)
            | None => None
            end
          else if is_char c "[" then
            match strip (chars "]") r with
            | Some rest => Some (JArray [], rest)
            | None =>
                match parse_elements (parse_value fuel') fuel' r with
                | Some (l, rest) => Some (JArray l, rest)
                | None => None
                end
            end
          else if is_char c "{" then
            match strip (chars "}") r with
            | Some rest => Some (JObject [], rest)
            | None =>
                match parse_members (parse_value fuel') fuel' r with
                | Some (m, rest) => Some (JObject m, rest)
                | None => None
                end
            end
          else
            match parse_number s with
            | Some (n, rest) => Some (JNumber n, rest)
            | None => None
            end
      end
  end.

(** [JSON.parse text]: one value, then the end of the text.  Every
    recursive call has consumed a character, so the length of the text
    is fuel enough. *)
Definition parse (text : string) : option value :=
  match parse_value (S (String.length text)) (chars text) with
  | Some (v, []) => Some v
  | _ => None
  end.

End JSON.

(** *** Line items as JavaScript values

    The cart is an array of objects; [JSON.stringify] sees their own
    properties in insertion order: the spread product first, then
    [quantity].  A product without a badge has no such member in the
    text. *)

Import JSON.

Definition product_members (p : Product.t) : list (string * value) :=
  [ ("id", JString (Product.id p));
    ("name", JString (Product.name p));
    ("description", JString (Product.description p));
    ("price", JNumber (Product.price p));
    ("image", JString (Product.image p)) ] ++
  match Product.badge p with
  | Some b => [ ("badge", JString b) ]
  | None => []
  end ++
  [ ("category", JString (Product.category p)) ].

Definition item_value (i : CartLineItem) : value :=
  JObject (product_members (item i) ++ [ ("quantity", JNumber (quantity i)) ]).

Definition cart_value (c : list CartLineItem) : value :=
  JArray (map item_value c).

Fixpoint value_eqb (a b : value) : bool :=
  match a, b with
  | JNull, JNull => true
  | JBool x, JBool y => Bool.eqb x y
  | JNumber x, JNumber y => (x =? y)%Z
  | JString x, JString y => String.eqb x y
  | JArray l, JArray l' =>
      (fix all2 (l l' : list value) : bool :=
         match l, l' with
         | [], [] => true
         | x :: r, y :: r' => value_eqb x y && all2 r r'
         | _, _ => false
         end) l l'
  | JObject m, JObject m' =>
      (fix all2 (m m' : list (string * value)) : bool :=
         match m, m' with
         | [], [] => true
         | (k, x) :: r, (k', y) :: r' => String.eqb k k' && value_eqb x y && all2 r r'
         | _, _ => false
         end) m m'
  | _, _ => false
  end.

(** Property read [o.k] on a parsed object. *)
Definition member (k : string) (m : list (string * value)) : option value :=
  snd <$> List.find (fun kv => String.eqb (fst kv) k) m.

Definition as_string (v : option value) : option string :=
  match v with Some (JString s) => Some s | _ => None end.
Definition as_number (v : option value) : option Z :=
  match v with Some (JNumber n) => Some n | _ => None end.
Definition as_optional_string (v : option value) : option (option string) :=
  match v with
  | None => Some None
  | Some (JString s) => Some (Some s)
  | Some _ => None
  end.

(** The typed reading of a JavaScript value as a line item: defined
    exactly on the values [item_value] produces. *)
Definition as_item (v : value) : option CartLineItem :=
  match v with
  | JObject m =>
      i ← as_string (member "id" m);
      n ← as_string (member "name" m);
      d ← as_string (member "description" m);
      p ← as_number (member "price" m);
      im ← as_string (member "image" m);
      b ← as_optional_string (member "badge" m);
      c ← as_string (member "category" m);
      q ← as_number (member "quantity" m);
      let it := mkItem (Product.mk i n d p im b c) q in
      if value_eqb (item_value it) v then Some it else None
  | _ => None
  end.

Definition as_cart (v : value) : option (list CartLineItem) :=
  match v with
  | JArray l => mapM as_item l
  | _ => None
  end.

(** ** The script *)

(** *** [const state = { ... }] (script.js:2-9)

    [localStorage.getItem('theme') || 'light'] and
    [JSON.parse(localStorage.getItem('cart')) || []].  [JSON.parse]
    converts its argument to a string first, so an absent key is the
    text [null].  A [SyntaxError] is not caught anywhere: it ends the
    script at this statement.  A value that parses but is no array of
    line items becomes [state.cart] as it is ([Untyped]); the typed
    model of the handlers starts from [Started]. *)
Inductive Startup :=
| SyntaxError
| Untyped (theme : string) (cart : value)
| Started (s : State).

Definition state_init (storage : gmap string string) : Startup :=
  let theme :=
    match storage !! "theme" with
    | Some t => if String.eqb t EmptyString then "light" else t
    | None => "light"
    end in
  match JSON.parse (default "null" (storage !! "cart")) with
  | None => SyntaxError
  | Some v =>
      let c := if truthy v then v else JArray [] in
      match as_cart c with
      | Some cart => Started (mkState theme cart [] false 1)
      | None => Untyped theme c
      end
  end.

(** *** [utils] *)

Module utils.

(** One evaluation of [generateId] reads the clock and the random
    source: [Date.now()] and the text [Math.random().toString(36)]. *)
Record Reading := mkReading {
  now : Z;
  random36 : string
}.

Definition digit36 (n : N) : ascii :=
  ascii_of_N (if (n <? 10)%N then 48 + n else 87 + n)%N.

Fixpoint digits36 (fuel : nat) (n : N) (acc : string) : string :=
  match fuel with
  | O => acc
  | S fuel' =>
      if (n <? 36)%N then String (digit36 n) acc
      else digits36 fuel' (n / 36)%N (String (digit36 (n mod 36)%N) acc)
  end.

(** [Number.prototype.toString(36)] on an integer; a number below
    [2 ^ (k + 1)] has at most [k + 1] digits. *)
Definition toString36 (z : Z) : string :=
  let n := Z.abs_N z in
  let body := digits36 (S (N.to_nat (N.log2 n))) n EmptyString in
  if (z <? 0)%Z then String "-" body else body.

(** [s.substr(2)]. *)
Definition substr2 (s : string) : string :=
  match s with
  | String _ (String _ r) => r
  | _ => EmptyString
  end.

(** script.js:55-57 *)
Definition generateId (r : Reading) : string :=
  toString36 (now r) +:+ substr2 (random36 r).

End utils.

(** *** [themeManager] *)

Module themeManager.

(** script.js:128-144; the toast stays in the container until a timer
    removes it, the model keeps every toast that was appended. *)
Definition showToast (message type : string) (w : World) : World :=
  on_dom (fun d => set_toastContainer (toastContainer d ++ [mkToast message type]) d) w.

(** script.js:97-106 *)
Definition setTheme (t : string) (w : World) : World :=
  let w := on_state (set_theme t) w in
  let w := on_dom (set_dataTheme (Some t)) w in
  let w := setItem "theme" t w in
  match themeIcon (dom w) with
  | Some _ =>
      on_dom (set_themeIcon (Some (if String.eqb t "dark" then "☀️" else "🌙"))) w
  | None => w
  end.

(** script.js:108-117 *)
Definition toggleTheme (w : World) : World :=
  let newTheme := if String.eqb (theme (state w)) "light" then "dark" else "light" in
  setTheme newTheme w.

(** The click listener of script.js:121-124. *)
Definition themeToggle_click (w : World) : World :=
  showToast "Theme changed" "success" (toggleTheme w).

(** script.js:92-95, the listener apart. *)
Definition init (w : World) : World := setTheme (theme (state w)) w.

End themeManager.

(** *** [productManager] *)

Module productManager.

(** What [await this.fetchProducts()] gives back to [loadProducts]. *)
Inductive FetchOutcome :=
| Resolved (products : list Product.t)
| Rejected.

(** script.js:306-369: six records with constant fields, each with an
    identifier drawn when the array literal is evaluated; [env i] is the
    reading of the [i]-th call of [generateId]. *)
Definition fetchProducts (env : nat -> utils.Reading) : list Product.t :=
  [ Product.mk (utils.generateId (env 0%nat)) "Nox Runner Pro"
      "Premium running shoes with advanced cushioning technology." 14999
      "https://images.unsplash.com/photo-1549298916-b41d501d3772?w=400&h=400&fit=crop&crop=center"
      (Some "New") "running";
    Product.mk (utils.generateId (env 1%nat)) "Nox Urban Walker"
      "Stylish casual shoes perfect for city exploration." 12999
      "https://images.unsplash.com/photo-1606107557195-0e29a4b5b4aa?w=400&h=400&fit=crop&crop=center"
      (Some "Popular") "casual";
    Product.mk (utils.generateId (env 2%nat)) "Nox Trail Master"
      "Rugged hiking boots for outdoor adventures." 17999
      "https://images.unsplash.com/photo-1544966503-7cc5ac882d5f?w=400&h=400&fit=crop&crop=center"
      (Some "Best Seller") "hiking";
    Product.mk (utils.generateId (env 3%nat)) "Nox Classic Oxford"
      "Elegant dress shoes for formal occasions." 19999
      "https://images.unsplash.com/photo-1582897085656-c636d006a246?w=400&h=400&fit=crop&crop=center"
      (Some "Premium") "dress";
    Product.mk (utils.generateId (env 4%nat)) "Nox Sport Max"
      "High-performance athletic shoes for all sports." 15999
      "https://images.unsplash.com/photo-1595950653106-6c9ebd614d3a?w=400&h=400&fit=crop&crop=center"
      (Some "Limited") "sports";
    Product.mk (utils.generateId (env 5%nat)) "Nox Comfort Plus"
      "All-day comfort shoes with memory foam insoles." 11999
      "https://images.unsplash.com/photo-1560769629-975ec94e6a86?w=400&h=400&fit=crop&crop=center"
      (Some "Comfort") "casual" ].

(** script.js:371-383: one card per product, appended to the grid. *)
Definition renderProducts (ps : list Product.t) (w : World) : World :=
  on_dom (fun d => set_productsGrid (productsGrid d ++ ps) d) w.

(** script.js:488: [state.cart.reduce((sum, item) => sum + item.quantity, 0)] *)
Definition totalItems (c : list CartLineItem) : Z :=
  fold_left (fun sum item => sum + quantity item) c 0.

(** script.js:487-496 *)
Definition updateCartCount (w : World) : World :=
  on_dom (set_cartCount (number_toString (totalItems (cart (state w))))) w.

(** script.js:498-500 *)
Definition saveCart (w : World) : World :=
  setItem "cart" (JSON.stringify (cart_value (cart (state w)))) w.

(** script.js:449-471.  [find] returns the first item with the product's
    identifier, and the increment is made on that very object of the
    array.  The button that is scaled for 150 ms is styling only. *)
Definition addToCart (product : Product.t) (w : World) : World :=
  let c := cart (state w) in
  let w :=
    match list_find (fun it => item_id it = Product.id product) c with
    | Some (i, existingItem) =>
        on_state (set_cart (<[i := mkItem (item existingItem) (quantity existingItem + 1)]> c)) w
    | None =>
        on_state (set_cart (c ++ [mkItem product 1])) w
    end in
  let w := updateCartCount w in
  let w := saveCart w in
  themeManager.showToast (Product.name product +:+ " added to cart") "success" w.

(** script.js:502-514 *)
Definition showLoadingState (w : World) : World :=
  match loadMoreBtn (dom w) with
  | Some b => on_dom (set_loadMoreBtn (Some (mkButton true "Loading..." (hidden b)))) w
  | None => w
  end.

Definition hideLoadingState (w : World) : World :=
  match loadMoreBtn (dom w) with
  | Some b => on_dom (set_loadMoreBtn (Some (mkButton false "Load More Products" (hidden b)))) w
  | None => w
  end.

(** script.js:516-522.  The button is dereferenced without a test:
    [None] is the [TypeError] of a page without the button. *)
Definition updateLoadMoreButton (w : World) : option World :=
  if (2 <=? currentPage (state w))%Z then
    match loadMoreBtn (dom w) with
    | Some b => Some (on_dom (set_loadMoreBtn (Some (mkButton (disabled b) (textContent b) true))) w)
    | None => None
    end
  else Some w.

Definition failed_toast (w : World) : World :=
  themeManager.showToast "Failed to load products. Please try again." "error" w.

(** script.js:285-304, after the guard: the part before [await] ... *)
Definition loadProducts_begin (w : World) : World :=
  showLoadingState (on_state (set_isLoading true) w).

(** ... and the part that runs when the promise settles: the rest of
    the [try] block, the [catch] block when the fetch was rejected or
    the [try] block threw, and the [finally] block. *)
Definition loadProducts_settle (r : FetchOutcome) (w : World) : World :=
  let w :=
    match r with
    | Resolved ps =>
        let w := on_state (fun s => set_products (products s ++ ps) s) w in
        let w := renderProducts ps w in
        match updateLoadMoreButton w with
        | Some w' => w'
        | None => failed_toast w
        end
    | Rejected => failed_toast w
    end in
  hideLoadingState (on_state (set_isLoading false) w).

(** The whole of [loadProducts], for the outcome [r] of its fetch. *)
Definition loadProducts (r : FetchOutcome) (w : World) : World :=
  if isLoading (state w) then w
  else loadProducts_settle r (loadProducts_begin w).

(** The click listener of the "load more" button, script.js:526-529. *)
Definition loadMore_click (r : FetchOutcome) (w : World) : World :=
  loadProducts r (on_state (fun s => set_currentPage (currentPage s + 1) s) w).

End productManager.

(** *** [formManager]

    What the visitor typed is a JavaScript string: a sequence of UTF-16
    code units; [length] counts them and [trim] and the class [\s] look
    at them one by one. *)

Definition jsstring := list N.

Definition str (s : string) : jsstring := map N_of_ascii (list_ascii_of_string s).

(** WhiteSpace and LineTerminator of ECMA-262: the code units that
    [String.prototype.trim] removes and that [\s] matches. *)
Definition white_space (c : N) : bool :=
  ((c =? 9) || (c =? 10) || (c =? 11) || (c =? 12) || (c =? 13) || (c =? 32) ||
   (c =? 160) || (c =? 5760) || ((8192 <=? c) && (c <=? 8202)) ||
   (c =? 8232) || (c =? 8233) || (c =? 8239) || (c =? 8287) ||
   (c =? 12288) || (c =? 65279))%N.

Fixpoint trimStart (s : jsstring) : jsstring :=
  match s with
  | c :: r => if white_space c then trimStart r else s
  | [] => []
  end.

Definition trimEnd (s : jsstring) : jsstring := rev (trimStart (rev s)).

Definition trim (s : jsstring) : jsstring := trimEnd (trimStart s).

(** Regular expressions without captures, matched by derivatives; the
    anchors [^] and [$] of the one pattern of the script make [test] a
    match of the whole string. *)
Module RegExp.

Inductive t :=
| Fail
| Eps
| Class (p : N -> bool)
| Seq (r1 r2 : t)
| Alt (r1 r2 : t)
| Star (r : t).

Definition Plus (r : t) : t := Seq r (Star r).
Definition Chr (c : ascii) : t := Class (N.eqb (N_of_ascii c)).

Fixpoint nullable (r : t) : bool :=
  match r with
  | Fail => false
  | Eps => true
  | Class _ => false
  | Seq r1 r2 => nullable r1 && nullable r2
  | Alt r1 r2 => nullable r1 || nullable r2
  | Star _ => true
  end.

Fixpoint deriv (c : N) (r : t) : t :=
  match r with
  | Fail => Fail
  | Eps => Fail
  | Class p => if p c then Eps else Fail
  | Seq r1 r2 =>
      if nullable r1 then Alt (Seq (deriv c r1) r2) (deriv c r2)
      else Seq (deriv c r1) r2
  | Alt r1 r2 => Alt (deriv c r1) (deriv c r2)
  | Star r1 => Seq (deriv c r1) (Star r1)
  end.

(** [/^r$/.test(s)] *)
Definition test (r : t) (s : jsstring) : bool :=
  nullable (fold_left (fun r c => deriv c r) s r).

(** The strings a pattern denotes. *)
Inductive matches : t -> jsstring -> Prop :=
| M_Eps : matches Eps []
| M_Class p c : p c = true -> matches (Class p) [c]
| M_Seq r1 r2 s1 s2 : matches r1 s1 -> matches r2 s2 -> matches (Seq r1 r2) (s1 ++ s2)
| M_AltL r1 r2 s : matches r1 s -> matches (Alt r1 r2) s
| M_AltR r1 r2 s : matches r2 s -> matches (Alt r1 r2) s
| M_Star0 r : matches (Star r) []
| M_StarS r s1 s2 : matches r s1 -> matches (Star r) s2 -> matches (Star r) (s1 ++ s2).

End RegExp.

Module Field.
(** An [input] or [textarea] of the contact form. *)
Record t := mk {
  name : string;
  value : jsstring;
  required : bool;          (* hasAttribute('required') *)
  error : bool              (* classList.contains('error') *)
}.
End Field.

(** The element with id [<name>-error]. *)
Record ErrorElement := mkErrorElement {
  error_text : string;
  error_show : bool                (* classList.contains('show') *)
}.

(** The contact form: its controls in document order, and the elements
    of the page by id, as far as [getElementById] is asked for them. *)
Record Form := mkForm {
  inputs : list Field.t;
  byId : gmap string ErrorElement
}.

Module formManager.

(** script.js:602: [/^[^\s@]+@[^\s@]+\.[^\s@]+$/] *)
Definition local_char (c : N) : bool := negb (white_space c || (c =? 64)%N).

Definition emailRegex : RegExp.t :=
  RegExp.Seq (RegExp.Plus (RegExp.Class local_char))
 (RegExp.Seq (RegExp.Chr "@")
 (RegExp.Seq (RegExp.Plus (RegExp.Class local_char))
 (RegExp.Seq (RegExp.Chr ".")
             (RegExp.Plus (RegExp.Class local_char))))).

(** script.js:647-654; a field name is looked up among the own keys of
    [labels]. *)
Definition getFieldLabel (fieldName : string) : string :=
  if String.eqb fieldName "name" then "Name"
  else if String.eqb fieldName "email" then "Email"
  else if String.eqb fieldName "message" then "Message"
  else fieldName.

Definition nonempty (v : jsstring) : bool :=
  match v with [] => false | _ :: _ => true end.

(** script.js:589-619: the pair [(isValid, errorMessage)] just before
    [showFieldError] is called. *)
Definition check (field : Field.t) : bool * string :=
  let value := trim (Field.value field) in
  let fieldName := Field.name field in
  let r := (true, EmptyString) in
  let r :=
    if Field.required field && negb (nonempty value)
    then (false, getFieldLabel fieldName +:+ " is required.") else r in
  let r :=
    if String.eqb fieldName "email" && nonempty value then
      if negb (RegExp.test emailRegex value)
      then (false, "Please enter a valid email address.") else r
    else r in
  let r :=
    if String.eqb fieldName "name" && nonempty value && (length value <? 2)%nat
    then (false, "Name must be at least 2 characters long.") else r in
  let r :=
    if String.eqb fieldName "message" && nonempty value && (length value <? 10)%nat
    then (false, "Message must be at least 10 characters long.") else r in
  r.

Definition error_id (field : Field.t) : string := Field.name field +:+ "-error".

Definition set_error (b : bool) (f : Field.t) : Field.t :=
  Field.mk (Field.name f) (Field.value f) (Field.required f) b.

(** script.js:639-645; [i] is the position of the field among the
    controls of the form. *)
Definition clearFieldError (i : nat) (form : Form) : Form :=
  match inputs form !! i with
  | Some field =>
      mkForm (<[i := set_error false field]> (inputs form))
             (alter (fun e => mkErrorElement (error_text e) false) (error_id field) (byId form))
  | None => form
  end.

(** script.js:625-637 *)
Definition showFieldError (i : nat) (message : string) (form : Form) : Form :=
  match inputs form !! i with
  | Some field =>
      if negb (String.eqb message EmptyString) then
        mkForm (<[i := set_error true field]> (inputs form))
               (alter (fun _ => mkErrorElement message true) (error_id field) (byId form))
      else clearFieldError i form
  | None => form
  end.

(** script.js:588-623 *)
Definition validateField (i : nat) (form : Form) : bool * Form :=
  match inputs form !! i with
  | Some field =>
      let '(isValid, errorMessage) := check field in
      (isValid, showFieldError i errorMessage form)
  | None => (true, form)
  end.

(** [querySelectorAll('input[required], textarea[required]')]: the
    positions of the required controls, in document order; [k] is the
    position of the head of [l]. *)
Fixpoint required_from (k : nat) (l : list Field.t) : list nat :=
  match l with
  | [] => []
  | f :: r =>
      if Field.required f then k :: required_from (S k) r
      else required_from (S k) r
  end.

Definition required_inputs (form : Form) : list nat :=
  required_from 0 (inputs form).

(** script.js:579-583, the callback of [forEach]. *)
Definition each_input : bool * Form -> nat -> bool * Form :=
  fun '(isValid, form) input =>
    let '(ok, form) := validateField input form in
    (if negb ok then false else isValid, form).

(** script.js:575-586 *)
Definition validateForm (form : Form) : bool * Form :=
  fold_left each_input (required_inputs form) (true, form).

End formManager.

Import productManager formManager.

(** ** Runs and specification-side definitions *)

(** The click on "add to cart" for each product of [ps], in order. *)
Definition adds (ps : list Product.t) (w : World) : World :=
  fold_left (fun w p => addToCart p w) ps w.





(** The (productId, quantity) pairs of a cart. *)
Definition pairs (c : list CartLineItem) : list (string * Z) :=
  map (fun it => (item_id it, quantity it)) c.

(** A page just started on an empty storage, and two products as a
    fetch on 14 November 2023 returns them; used as concrete inputs. *)
Definition fresh_page : World :=
  mkWorld (mkState "light" [] [] false 1) ∅
          (mkDom None (Some "🌙") "0" [] (Some (mkButton false "Load More Products" false)) []).

Definition sample_env (i : nat) : utils.Reading :=
  utils.mkReading (1700000000000 + Z.of_nat i) "0.4fzyo82mvyr".

Definition runner : Product.t :=
  Product.mk "loyw3v284fzyo82mvyr" "Nox Runner Pro"
    "Premium running shoes with advanced cushioning technology." 14999
    "https://images.unsplash.com/photo-1549298916-b41d501d3772?w=400&h=400&fit=crop&crop=center"
    (Some "New") "running".

Definition walker : Product.t :=
  Product.mk "loyw3v294fzyo82mvyr" "Nox Urban Walker"
    "Stylish casual shoes perfect for city exploration." 12999
    "https://images.unsplash.com/photo-1606107557195-0e29a4b5b4aa?w=400&h=400&fit=crop&crop=center"
    (Some "Popular") "casual".

(** The name field of the contact form with two letters typed in. *)
Definition jo : Field.t := Field.mk "name" (str " Jo ") true false.

(** A contact form with a one-letter name, no address and a short
    message; every field has its error element. *)
Definition sample_form : Form :=
  mkForm [ Field.mk "name" (str "J") true false;
           Field.mk "phone" (str "12345") false false;
           Field.mk "email" [] true false;
           Field.mk "message" (str "too short") true false ]
         (<["name-error" := mkErrorElement EmptyString false]>
         (<["email-error" := mkErrorElement EmptyString false]>
         (<["message-error" := mkErrorElement EmptyString false]> ∅))).

(** The answer of [validateField] at a position of the form. *)
Definition valid_at (form : Form) (i : nat) : bool :=
  match inputs form !! i with
  | Some f => fst (check f)
  | None => true
  end.

(** What [validateField] leaves in the error element [e] of the field
    [f]: hidden when the field is valid, the field's message otherwise. *)
Definition shown (f : Field.t) (e : ErrorElement) : ErrorElement :=
  if fst (check f) then mkErrorElement (error_text e) false
  else mkErrorElement (snd (check f)) true.

(** The readings of a second fetch, one second later, and its first
    record. *)
Definition later_env (i : nat) : utils.Reading :=
  utils.mkReading (1700000001000 + Z.of_nat i) "0.4fzyo82mvyr".

Definition runner_again : Product.t :=
  Product.mk "loyw3vu04fzyo82mvyr" "Nox Runner Pro"
    "Premium running shoes with advanced cushioning technology." 14999
    "https://images.unsplash.com/photo-1549298916-b41d501d3772?w=400&h=400&fit=crop&crop=center"
    (Some "New") "running".


(** ** The page as a whole

    [loadProducts] is an [async] function: a call runs up to its
    [await] and returns; the rest runs when the promise settles, with
    other handlers in between.  The events of the page that reach the
    modelled world, and the handler each one runs. *)

#[local] Instance Product_eq_dec : EqDecision Product.t.
Proof. solve_decision. Defined.

(** The synchronous part of a call of [loadProducts], script.js:285-293. *)
Definition loadProducts_call (w : World) : World :=
  if isLoading (state w) then w else loadProducts_begin w.

(** The listener of [DOMContentLoaded], script.js:847-865: of the eight
    [init] calls, [themeManager.init] and [productManager.init] write to
    the modelled world, then [updateCartCount] is called. *)
Definition DOMContentLoaded (w : World) : World :=
  let w := themeManager.init w in
  let w := loadProducts_call w in
  updateCartCount w.

Inductive Event :=
| ThemeToggleClick
| AddToCartClick (product : Product.t)
| LoadMoreClick
| FetchSettled (batch : option (nat -> utils.Reading)).

(** The promise of [fetchProducts] resolves with its six records, or is
    rejected. *)
Definition outcome (batch : option (nat -> utils.Reading)) : FetchOutcome :=
  match batch with
  | Some env => Resolved (fetchProducts env)
  | None => Rejected
  end.

(** When the browser can deliver the event: a card's button exists once
    the card is rendered, a disabled or undisplayed button takes no
    click, and a promise settles only while [loadProducts] waits for it. *)
Definition enabled (e : Event) (w : World) : bool :=
  match e with
  | ThemeToggleClick => true
  | AddToCartClick p => bool_decide (p ∈ productsGrid (dom w))
  | LoadMoreClick =>
      match loadMoreBtn (dom w) with
      | Some b => negb (disabled b) && negb (hidden b)
      | None => false
      end
  | FetchSettled _ => isLoading (state w)
  end.

Definition handle (e : Event) (w : World) : World :=
  match e with
  | ThemeToggleClick => themeManager.themeToggle_click w
  | AddToCartClick p => addToCart p w
  | LoadMoreClick =>
      loadProducts_call (on_state (fun s => set_currentPage (currentPage s + 1) s) w)
  | FetchSettled batch => loadProducts_settle (outcome batch) w
  end.

Definition dispatch (w : World) (e : Event) : World :=
  if enabled e w then handle e w else w.

Definition run (es : list Event) (w : World) : World := fold_left dispatch es w.

(** What the start-up reads from a storage, field by field. *)
Definition initial_theme (storage : gmap string string) : string :=
  match storage !! "theme" with
  | Some t => if String.eqb t EmptyString then "light" else t
  | None => "light"
  end.

Definition initial_cart (storage : gmap string string) : option (list CartLineItem) :=
  match JSON.parse (default "null" (storage !! "cart")) with
  | Some v => as_cart (if truthy v then v else JArray [])
  | None => None
  end.

(** The identifiers of a sequence of products in the order of their
    first occurrence, how often an identifier occurs, and the first
    product that has it. *)
Definition first_ids (ps : list Product.t) : list string :=
  rev (remove_dups (rev (map Product.id ps))).

Definition occurrences (i : string) (ps : list Product.t) : nat :=
  length (List.filter (fun p => String.eqb (Product.id p) i) ps).

Definition first_with (i : string) (ps : list Product.t) : option Product.t :=
  List.find (fun p => String.eqb (Product.id p) i) ps.

(** A page whose storage holds the cart of an earlier visit. *)
Definition returning_storage : gmap string string :=
  localStorage (themeManager.toggleTheme (adds [runner; walker; runner] fresh_page)).

Definition returning_state : State :=
  mkState "dark" [mkItem runner 2; mkItem walker 1] [] false 1.

Definition visit : list Event :=
  [ FetchSettled (Some sample_env); AddToCartClick walker; LoadMoreClick;
    ThemeToggleClick; FetchSettled None; LoadMoreClick;
    FetchSettled (Some later_env); AddToCartClick runner_again; LoadMoreClick ].


(** The loader's bookkeeping, as an invariant of the page: the button is
    disabled exactly while a fetch is awaited; while the button is shown
    at most one batch is in the catalogue, and none while the first
    fetch is awaited; once it is hidden nothing is awaited. *)
Definition loader_ok (w : World) : Prop :=
  let n := length (products (state w)) in
  1 <= currentPage (state w) /\
  match loadMoreBtn (dom w) with
  | Some b =>
      disabled b = isLoading (state w) /\
      (hidden b = false ->
       (n = 0 \/ n = 6)%nat /\
       (isLoading (state w) = true -> currentPage (state w) < 2 -> n = 0%nat)) /\
      (hidden b = true -> isLoading (state w) = false /\ (n = 6 \/ n = 12)%nat)
  | None =>
      currentPage (state w) = 1 /\ (n = 0 \/ n = 6)%nat /\
      (isLoading (state w) = true -> n = 0%nat)
  end.

(** A cart [c'] extends a cart [c]: every line item of [c] is still at
    its position, with the same product and at least its quantity. *)
Definition extends (c c' : list CartLineItem) : Prop :=
  forall i it,
    c !! i = Some it ->
    exists q, c' !! i = Some (mkItem (item it) q) /\ quantity it <= q.

(** What the cart is after the clicks [ps], line item by line item. *)
Definition tallies (ps : list Product.t) (c : list CartLineItem) : Prop :=
  map item_id c = first_ids ps /\
  forall k it,
    c !! k = Some it ->
    first_with (item_id it) ps = Some (item it) /\
    quantity it = Z.of_nat (occurrences (item_id it) ps).

(** *** Submitting the contact form

    The form with the values its controls have in the markup (what
    [reset] restores; a control without one has the empty string), its
    submit button if it has one, and the world the toasts go to. *)
Record ContactPage := mkContactPage {
  contactForm : Form;
  defaultValues : list jsstring;
  submitButton : option Button;
  world : World
}.

Definition set_value (v : jsstring) (f : Field.t) : Field.t :=
  Field.mk (Field.name f) v (Field.required f) (Field.error f).

(** [HTMLFormElement.reset()] on the controls. *)
Fixpoint reset_inputs (defaults : list jsstring) (l : list Field.t) : list Field.t :=
  match l with
  | [] => []
  | f :: l' =>
      match defaults with
      | d :: ds => set_value d f :: reset_inputs ds l'
      | [] => set_value [] f :: reset_inputs [] l'
      end
  end.

Definition reset (defaults : list jsstring) (form : Form) : Form :=
  mkForm (reset_inputs defaults (inputs form)) (byId form).

(** [errorHandler], script.js:831-843: the two listeners of [window]. *)
Definition window_error (w : World) : World :=
  themeManager.showToast "Something went wrong. Please refresh the page." "error" w.

Definition unhandledrejection (w : World) : World :=
  themeManager.showToast "A network error occurred. Please check your connection." "error" w.

(** How a submit event leaves [submitForm]: not called, waiting at its
    [await] with the text of the button kept for the [finally] block, or
    thrown out of before the [try] block, which rejects the promise the
    [async] function returned; [handleFormSubmit] drops that promise. *)
Inductive Submission :=
| NotSent
| Sending (originalText : string)
| Thrown.

(** script.js:656-663, [submitForm] up to its [await].  Without a submit
    button [querySelector] gives [null] and the read of [textContent]
    throws. *)
Definition submitForm_begin (cp : ContactPage) : ContactPage * Submission :=
  match submitButton cp with
  | Some b =>
      (mkContactPage (contactForm cp) (defaultValues cp)
         (Some (mkButton true "Sending..." (hidden b))) (world cp),
       Sending (textContent b))
  | None => (cp, Thrown)
  end.

(** script.js:664-679, when the timer of 2000 ms has fired: the rest of
    the [try] block and the [finally] block (the promise of the timer
    is never rejected). *)
Definition submitForm_settle (originalText : string) (cp : ContactPage) : ContactPage :=
  mkContactPage
    (reset (defaultValues cp) (contactForm cp))
    (defaultValues cp)
    (match submitButton cp with
     | Some b => Some (mkButton false originalText (hidden b))
     | None => None
     end)
    (themeManager.showToast "Message sent successfully! We'll get back to you soon."
       "success" (world cp)).

(** script.js:561-573 *)
Definition handleFormSubmit (cp : ContactPage) : ContactPage * Submission :=
  let '(isValid, form) := validateForm (contactForm cp) in
  if isValid then
    submitForm_begin (mkContactPage form (defaultValues cp) (submitButton cp) (world cp))
  else
    (mkContactPage form (defaultValues cp) (submitButton cp)
       (themeManager.showToast "Please fix the errors and try again." "error" (world cp)),
     NotSent).

(** What follows a submit event once its tasks have run: the timer of
    [submitForm], or the [unhandledrejection] event of the dropped
    promise. *)
Definition submit_event (cp : ContactPage) : ContactPage :=
  match handleFormSubmit cp with
  | (cp, NotSent) => cp
  | (cp, Sending originalText) => submitForm_settle originalText cp
  | (cp, Thrown) =>
      mkContactPage (contactForm cp) (defaultValues cp) (submitButton cp)
        (unhandledrejection (world cp))
  end.

(** A filled-in contact form with an optional field that breaks its own
    rule, and the page around it. *)
Definition filled_form : Form :=
  mkForm [ Field.mk "name" (str " Jo ") true false;
           Field.mk "email" (str "jo@example.org") true false;
           Field.mk "message" (str "Do you ship abroad?") true false;
           Field.mk "name" (str "x") false true ]
         (<["name-error" := mkErrorElement EmptyString false]> ∅).

Definition contact_page (form : Form) : ContactPage :=
  mkContactPage form [ []; []; [] ] (Some (mkButton false "Send Message" false)) fresh_page.

(** *** [utils.throttle] and [utils.debounce]

    What happens to a wrapped function: time passes, the wrapper is
    called, or the oldest timer the wrapper has set comes due and runs.
    A timer never runs before it is due; [setTimeout] takes a negative
    delay for zero. *)
Inductive Tick (A : Type) :=
| Wait (d : N)
| Invoke (args : A)
| Fire.
Arguments Wait {A} d.
Arguments Invoke {A} args.
Arguments Fire {A}.

(** The clock after the ticks [es], started at [t]. *)
Fixpoint clock {A} (t : Z) (es : list (Tick A)) : Z :=
  match es with
  | [] => t
  | Wait d :: r => clock (t + Z.of_N d) r
  | _ :: r => clock t r
  end.

(** The calls of the wrapper among [es], each with its time. *)
Fixpoint invocations {A} (t : Z) (es : list (Tick A)) : list (Z * A) :=
  match es with
  | [] => []
  | Wait d :: r => invocations (t + Z.of_N d) r
  | Invoke args :: r => (t, args) :: invocations t r
  | Fire :: r => invocations t r
  end.

Module throttle.

(** The closure of script.js:41-52: the variable [inThrottle], the due
    times of the timers set at line 49, and, to observe it, when and on
    what [func] was applied. *)
Record Throttled (A : Type) := mkThrottled {
  now : Z;
  inThrottle : bool;
  timers : list Z;
  applied : list (Z * A)
}.
Arguments mkThrottled {A}.
Arguments now {A}.
Arguments inThrottle {A}.
Arguments timers {A}.
Arguments applied {A}.

(** script.js:42: [inThrottle] is [undefined]. *)
Definition start {A} (t : Z) : Throttled A := mkThrottled t false [] [].

(** script.js:43-51, the function that [throttle] returns. *)
Definition call {A} (limit : Z) (args : A) (s : Throttled A) : Throttled A :=
  if inThrottle s then s
  else mkThrottled (now s) true (timers s ++ [now s + Z.max 0 limit])
                   (applied s ++ [(now s, args)]).

(** script.js:49, the callback of the timer. *)
Definition timer {A} (s : Throttled A) : Throttled A :=
  mkThrottled (now s) false (timers s) (applied s).

Definition step {A} (limit : Z) (s : Throttled A) (e : Tick A) : Throttled A :=
  match e with
  | Wait d => mkThrottled (now s + Z.of_N d) (inThrottle s) (timers s) (applied s)
  | Invoke args => call limit args s
  | Fire =>
      match timers s with
      | due :: rest =>
          if (due <=? now s)%Z
          then timer (mkThrottled (now s) (inThrottle s) rest (applied s))
          else s
      | [] => s
      end
  end.

Definition run {A} (limit : Z) (es : list (Tick A)) (s : Throttled A) : Throttled A :=
  fold_left (step limit) es s.

End throttle.

Module debounce.

(** The closure of script.js:28-38: the variable [timeout] (a timer
    identifier once the wrapper was called), the timers that were set
    and have neither run nor been cleared, each with its identifier, its
    due time and the arguments its [later] holds, and the identifier of
    the next timer. *)
Record Debounced (A : Type) := mkDebounced {
  now : Z;
  timeout : option nat;
  pending : list (nat * (Z * A));
  next : nat;
  applied : list (Z * A)
}.
Arguments mkDebounced {A}.
Arguments now {A}.
Arguments timeout {A}.
Arguments pending {A}.
Arguments next {A}.
Arguments applied {A}.

Definition start {A} (t : Z) : Debounced A := mkDebounced t None [] 0%nat [].

(** [clearTimeout]: of [undefined], or of a timer that has run, it does
    nothing. *)
Definition clearTimeout {A} (id : option nat) (l : list (nat * (Z * A)))
  : list (nat * (Z * A)) :=
  match id with
  | Some i => List.filter (fun p => negb (Nat.eqb (fst p) i)) l
  | None => l
  end.

(** script.js:30-37 *)
Definition executedFunction {A} (wait : Z) (args : A) (s : Debounced A) : Debounced A :=
  let cleared := clearTimeout (timeout s) (pending s) in
  mkDebounced (now s) (Some (next s))
    (cleared ++ [(next s, (now s + Z.max 0 wait, args))])
    (S (next s)) (applied s).

(** script.js:31-34 *)
Definition later {A} (args : A) (s : Debounced A) : Debounced A :=
  mkDebounced (now s) (timeout s) (clearTimeout (timeout s) (pending s)) (next s)
    (applied s ++ [(now s, args)]).

Definition step {A} (wait : Z) (s : Debounced A) (e : Tick A) : Debounced A :=
  match e with
  | Wait d =>
      mkDebounced (now s + Z.of_N d) (timeout s) (pending s) (next s) (applied s)
  | Invoke args => executedFunction wait args s
  | Fire =>
      match pending s with
      | (_, (due, args)) :: rest =>
          if (due <=? now s)%Z
          then later args (mkDebounced (now s) (timeout s) rest (next s) (applied s))
          else s
      | [] => s
      end
  end.

Definition run {A} (wait : Z) (es : list (Tick A)) (s : Debounced A) : Debounced A :=
  fold_left (step wait) es s.

End debounce.

(** What holds of a throttled function after the ticks [es]. *)
Definition throttled_ok {A} (limit t0 : Z) (es : list (Tick A))
  (s : throttle.Throttled A) : Prop :=
  throttle.now s = clock t0 es /\
  sublist (throttle.applied s) (invocations t0 es) /\
  (forall i c1 c2,
     throttle.applied s !! i = Some c1 -> throttle.applied s !! S i = Some c2 ->
     c1.1 + Z.max 0 limit <= c2.1) /\
  match last (throttle.applied s) with
  | None =>
      throttle.inThrottle s = false /\ throttle.timers s = [] /\ invocations t0 es = []
  | Some c =>
      head (throttle.applied s) = head (invocations t0 es) /\
      c.1 <= throttle.now s /\
      if throttle.inThrottle s
      then throttle.timers s = [c.1 + Z.max 0 limit]
      else throttle.timers s = [] /\ c.1 + Z.max 0 limit <= throttle.now s
  end.


(** Scrolling for a while, with the wrapper of script.js:225 and with
    the one of script.js:554. *)
Definition scrolling : list (Tick string) :=
  [ Invoke "a"; Wait 40%N; Invoke "b"; Fire; Wait 70%N; Invoke "c"; Fire; Invoke "d";
    Wait 350%N; Fire; Fire; Invoke "e" ].

(** *** The mobile menu *)

(** The marks [openMobileMenu] and [closeMobileMenu] write: the class
    [active] of the menu and of its toggle, the attribute
    [aria-expanded] of the toggle, and [overflow] of the body. *)
Record Menu := mkMenu {
  navMenu_active : bool;
  mobileMenuToggle_active : bool;
  aria_expanded : option string;
  body_overflow : string
}.

Module navigation.

(** script.js:240-245 *)
Definition openMobileMenu (m : Menu) : Menu := mkMenu true true (Some "true") "hidden".

(** script.js:247-252 *)
Definition closeMobileMenu (m : Menu) : Menu := mkMenu false false (Some "false") EmptyString.

(** script.js:230-238 *)
Definition toggleMobileMenu (m : Menu) : Menu :=
  if navMenu_active m then closeMobileMenu m else openMobileMenu m.

End navigation.

(** The listeners that reach the menu: the click on the toggle
    (script.js:195), the click on a link of the menu whose target exists
    or not (203-212), a click outside of menu and toggle (216-222), the
    key Escape (713-717) and Shift+Tab on the first link (735-743). *)
Inductive MenuEvent :=
| MenuToggleClick
| NavLinkClick (targetElement : bool)
| OutsideClick
| EscapeKey
| ShiftTabOnFirstLink.

Definition menu_listener (m : Menu) (e : MenuEvent) : Menu :=
  match e with
  | MenuToggleClick => navigation.toggleMobileMenu m
  | NavLinkClick targetElement =>
      if targetElement then navigation.closeMobileMenu m else m
  | OutsideClick =>
      if navMenu_active m then navigation.closeMobileMenu m else m
  | EscapeKey => navigation.closeMobileMenu m
  | ShiftTabOnFirstLink => navigation.closeMobileMenu m
  end.

(** The events after which the menu is closed whatever it was, the
    events whose listener writes all the marks whatever the menu was,
    and the clicks on the toggle. *)
Definition closes (e : MenuEvent) : bool :=
  match e with
  | MenuToggleClick => false
  | NavLinkClick targetElement => targetElement
  | OutsideClick | EscapeKey | ShiftTabOnFirstLink => true
  end.

Definition writes_marks (e : MenuEvent) : bool :=
  match e with
  | NavLinkClick targetElement => targetElement
  | OutsideClick => false
  | MenuToggleClick | EscapeKey | ShiftTabOnFirstLink => true
  end.

Definition is_toggle (e : MenuEvent) : bool :=
  match e with MenuToggleClick => true | _ => false end.

(** The events after the last one of [es] that closes the menu. *)
Fixpoint since_closed (es : list MenuEvent) : list MenuEvent :=
  match es with
  | [] => []
  | e :: r =>
      if existsb closes r then since_closed r
      else if closes e then r else e :: r
  end.

Definition toggle_clicks (es : list MenuEvent) : nat :=
  length (List.filter is_toggle es).

(** The marks agree with each other. *)
Definition menu_consistent (m : Menu) : Prop :=
  mobileMenuToggle_active m = navMenu_active m /\
  aria_expanded m = Some (if navMenu_active m then "true" else "false") /\
  body_overflow m = (if navMenu_active m then "hidden" else EmptyString).

(** *** Favourites *)

(** The heart of a product card: the class [favorited] and the text. *)
Record FavoriteButton := mkFavoriteButton {
  favorited : bool;
  favorite_text : string
}.

(** script.js:473-485; the product identifier is not used. *)
Definition toggleFavorite (productId : string) (button : FavoriteButton) (w : World)
  : FavoriteButton * World :=
  if favorited button then
    (mkFavoriteButton false "♥", themeManager.showToast "Removed from favorites" "info" w)
  else
    (mkFavoriteButton true "❤️", themeManager.showToast "Added to favorites" "success" w).

(** [n] clicks on the heart of the card of [productId]. *)
Fixpoint favorite_clicks (n : nat) (productId : string) (bw : FavoriteButton * World)
  : FavoriteButton * World :=
  match n with
  | O => bw
  | S n => favorite_clicks n productId (toggleFavorite productId (fst bw) (snd bw))
  end.

(** * Facts *)

(** ** The model at work *)

Example toString36_of_a_timestamp : utils.toString36 1700000000000 = "loyw3v28".
Proof. vm_compute. reflexivity. Qed.

Example first_batch_ids :
  map Product.id (fetchProducts sample_env) =
  [ "loyw3v284fzyo82mvyr"; "loyw3v294fzyo82mvyr"; "loyw3v2a4fzyo82mvyr";
    "loyw3v2b4fzyo82mvyr"; "loyw3v2c4fzyo82mvyr"; "loyw3v2d4fzyo82mvyr" ].
Proof. vm_compute. reflexivity. Qed.

Example trim_both_ends : trim (str "  Jo 	") = str "Jo".
Proof. vm_compute. reflexivity. Qed.

Example emailRegex_examples :
  map (fun s => RegExp.test emailRegex (str s))
      [ "a@b.co"; "not-an-email"; "a@b"; "a@.co"; "a b@c.de"; "a@b@c.de"; "a@b.c.d" ] =
  [ true; false; false; false; false; false; true ].
Proof. vm_compute. reflexivity. Qed.

Example parse_examples :
  JSON.parse "[1,-20,null,true,{}]" =
    Some (JArray [JNumber 1; JNumber (-20); JNull; JBool true; JObject []]) /\
  JSON.parse "[1,2" = None /\
  JSON.parse "{oops" = None /\
  JSON.parse "007" = None.
Proof. repeat split; vm_compute; reflexivity. Qed.

Example second_click_increments :
  pairs (cart (state (adds [runner; walker; runner] fresh_page))) =
  [ ("loyw3v284fzyo82mvyr", 2); ("loyw3v294fzyo82mvyr", 1) ].
Proof. vm_compute. reflexivity. Qed.

Example failed_load_more :
  currentPage (state (loadMore_click Rejected fresh_page)) = 2 /\
  products (state (loadMore_click Rejected fresh_page)) = [].
Proof. split; reflexivity. Qed.

(** ** JSON: reading back what [stringify] wrote *)

Module JSONFacts.

(** Induction over a value and, through the lists, over its children. *)
Lemma value_induction (P : value -> Prop) :
  P JNull ->
  (forall b, P (JBool b)) ->
  (forall n, P (JNumber n)) ->
  (forall s, P (JString s)) ->
  (forall l, Forall P l -> P (JArray l)) ->
  (forall m, Forall (fun kv => P (snd kv)) m -> P (JObject m)) ->
  forall v, P v.
Proof.
  intros HN HB HZ HS HA HO.
  fix IH 1. intros [ | b | n | s | l | m ].
  - exact HN.
  - apply HB.
  - apply HZ.
  - apply HS.
  - apply HA. induction l as [ | v l IHl ]; constructor; [ apply IH | exact IHl ].
  - apply HO. induction m as [ | [k v] m IHm ]; constructor; [ apply IH | exact IHm ].
Qed.



Lemma strip_app p r : strip p (p ++ r) = Some r.
Proof.
  induction p as [ | a p IH ]; [ reflexivity | ].
  simpl. rewrite Ascii.eqb_refl. exact IH.
Qed.

(** *** Strings *)




(** *** Numbers *)







(** *** Values *)









Section Loops.
Variable f : nat.




End Loops.






End JSONFacts.

(** ** The cart as a stored value *)

Lemma value_eqb_refl v : value_eqb v v = true.
Proof.
  induction v as [ | b | n | s | l IHl | m IHm ] using JSONFacts.value_induction; simpl.
  - reflexivity.
  - destruct b; reflexivity.
  - apply Z.eqb_refl.
  - apply String.eqb_refl.
  - induction IHl as [ | v l Hv _ IH ]; [ reflexivity | ]. rewrite Hv, IH. reflexivity.
  - induction IHm as [ | [k v] m Hv _ IH ]; [ reflexivity | ].
    simpl in Hv. rewrite String.eqb_refl, Hv, IH. reflexivity.
Qed.




(** ** The cart *)

Section Cart.
Implicit Types (p : Product.t) (w : World) (c : list CartLineItem).

Lemma cart_addToCart p w :
  cart (state (addToCart p w)) =
  match list_find (fun it => item_id it = Product.id p) (cart (state w)) with
  | Some (i, e) => <[i := mkItem (item e) (quantity e + 1)]> (cart (state w))
  | None => cart (state w) ++ [mkItem p 1]
  end.
Proof.
  unfold addToCart.
  destruct (list_find _ (cart (state w))) as [[i e] | ]; reflexivity.
Qed.





Lemma ids_insert c i e e' :
  c !! i = Some e -> item_id e' = item_id e ->
  map item_id (<[i := e']> c) = map item_id c.
Proof.
  revert i. induction c as [ | x c IH ]; intros [ | i ] Hi He; try discriminate.
  - injection Hi as ->. simpl. rewrite He. reflexivity.
  - simpl. f_equal. apply IH; assumption.
Qed.







Lemma NoDup_addToCart p w :
  NoDup (map item_id (cart (state w))) ->
  NoDup (map item_id (cart (state (addToCart p w)))).
Proof.
  intros Hnd. rewrite cart_addToCart.
  destruct (list_find _ (cart (state w))) as [[i e] | ] eqn:E.
  - apply list_find_Some in E as (Hi & _).
    rewrite (ids_insert _ _ e); [ exact Hnd | exact Hi | reflexivity ].
  - rewrite map_app. apply NoDup_app. split; [ exact Hnd | ]. split.
    + intros x Hx Hin. apply list_elem_of_singleton in Hin. subst x.
      apply list_elem_of_In, in_map_iff in Hx as (it & Hid & Hit).
      rewrite list_find_None, Forall_forall in E.
      apply (E it); [ apply list_elem_of_In; exact Hit | exact Hid ].
    + apply NoDup_singleton.
Qed.

Lemma NoDup_adds ps w :
  NoDup (map item_id (cart (state w))) ->
  NoDup (map item_id (cart (state (adds ps w)))).
Proof.
  unfold adds. revert w. induction ps as [ | p ps IH ]; intros w Hnd; cbn [fold_left].
  - exact Hnd.
  - apply IH, NoDup_addToCart, Hnd.
Qed.

End Cart.

(** ** Claims about the cart *)



(** C2.  In every cart reached from the empty cart by a sequence of
    [addToCart] calls no two line items have the same product
    identifier. *)
Theorem cart_ids_unique (ps : list Product.t) (w : World) :
  cart (state w) = [] ->
  NoDup (map item_id (cart (state (adds ps w)))).
Proof.
  intros Hempty. apply NoDup_adds. rewrite Hempty. apply NoDup_nil_2.
Qed.

Lemma cart_ids_unique_witness :
  cart (state fresh_page) = [] /\
  NoDup (map item_id (cart (state (adds [runner; walker; runner] fresh_page)))).
Proof.
  split; [ reflexivity | ].
  apply (cart_ids_unique [runner; walker; runner] fresh_page). reflexivity.
Defined.



(** ** Claims about the stored cart *)



Lemma state_init_unparsable storage text :
  storage !! "cart" = Some text -> JSON.parse text = None ->
  state_init storage = SyntaxError.
Proof.
  intros Hcart Hparse. unfold state_init.
  rewrite Hcart. cbn [from_option]. unfold id. rewrite Hparse. reflexivity.
Qed.

(** C5, on the code.  A stored cart that is not JSON makes [JSON.parse]
    throw while the [state] object is being built: the start-up ends in a
    [SyntaxError], not in an empty cart.  A stored text that is JSON but
    no array, such as an object, becomes [state.cart] as it is.  Only an
    absent key and the falsy values end in the empty cart. *)
Theorem state_init_corrupted_cart :
  state_init (<["cart" := "{oops"]> ∅) = SyntaxError /\
  state_init (<["cart" := "{}"]> ∅) = Untyped "light" (JObject []) /\
  state_init ∅ = Started (mkState "light" [] [] false 1) /\
  state_init (<["cart" := "null"]> ∅) = Started (mkState "light" [] [] false 1).
Proof. repeat split; vm_compute; reflexivity. Qed.

(** ** Claims about the theme *)

Section Theme.
Import themeManager.

Lemma setTheme_applied t w :
  theme (state (setTheme t w)) = t /\
  dataTheme (dom (setTheme t w)) = Some t /\
  localStorage (setTheme t w) !! "theme" = Some t.
Proof.
  unfold setTheme, setItem, on_dom, on_state. cbn.
  destruct (themeIcon (dom w)); cbn; rewrite lookup_insert_eq; repeat split.
Qed.

(** C9.  From the theme [light] or [dark], two calls of [toggleTheme]
    give the theme back; after [setTheme] and after [toggleTheme] the
    value under the key [theme] of the storage is the value of
    [state.theme] and of the [data-theme] attribute. *)
Theorem toggleTheme_involutive_and_persisted :
  (forall w,
     theme (state w) = "light" \/ theme (state w) = "dark" ->
     theme (state (toggleTheme (toggleTheme w))) = theme (state w)) /\
  (forall t w,
     theme (state (setTheme t w)) = t /\
     dataTheme (dom (setTheme t w)) = Some t /\
     localStorage (setTheme t w) !! "theme" = Some t) /\
  (forall w,
     dataTheme (dom (toggleTheme w)) = Some (theme (state (toggleTheme w))) /\
     localStorage (toggleTheme w) !! "theme" = Some (theme (state (toggleTheme w)))).
Proof.
  split; [ | split ].
  - intros w Hw. unfold toggleTheme.
    rewrite !(proj1 (setTheme_applied _ _)).
    destruct Hw as [-> | ->]; reflexivity.
  - exact setTheme_applied.
  - intros w. unfold toggleTheme.
    destruct (setTheme_applied
                (if String.eqb (theme (state w)) "light" then "dark" else "light") w)
      as (-> & -> & ->).
    split; reflexivity.
Qed.

Lemma toggleTheme_involutive_and_persisted_witness :
  (theme (state fresh_page) = "light" \/ theme (state fresh_page) = "dark") /\
  theme (state (toggleTheme (toggleTheme fresh_page))) = theme (state fresh_page).
Proof.
  split; [ left; reflexivity | ].
  apply (proj1 toggleTheme_involutive_and_persisted fresh_page).
  left. reflexivity.
Defined.

End Theme.

(** ** Claims about the catalogue *)

(** Whatever ran between the click and the rejection, the part of
    [loadProducts] that runs on the rejection only appends the toast and
    clears the loading state. *)
Lemma loadProducts_settle_rejected (w : World) :
  toastContainer (dom (loadProducts_settle Rejected w)) =
    toastContainer (dom w) ++
    [mkToast "Failed to load products. Please try again." "error"] /\
  products (state (loadProducts_settle Rejected w)) = products (state w) /\
  productsGrid (dom (loadProducts_settle Rejected w)) = productsGrid (dom w) /\
  cart (state (loadProducts_settle Rejected w)) = cart (state w) /\
  localStorage (loadProducts_settle Rejected w) = localStorage w /\
  isLoading (state (loadProducts_settle Rejected w)) = false /\
  currentPage (state (loadProducts_settle Rejected w)) = currentPage (state w).
Proof.
  unfold loadProducts_settle, failed_toast, themeManager.showToast, hideLoadingState.
  destruct w as [st ls [dt ti cc tc [b | ] pg]]; cbn; repeat split.
Qed.



(** ** Identifiers *)

Module IdFacts.
Import utils.

Lemma app_assoc (a b c : string) : (a +:+ b) +:+ c = a +:+ (b +:+ c).
Proof.
  induction a as [ | x a IH ]; [ reflexivity | ].
  change (String x ((a +:+ b) +:+ c) = String x (a +:+ (b +:+ c))).
  rewrite IH. reflexivity.
Qed.












End IdFacts.






(** ** Regular expressions: the matcher decides the denotation *)

Module RegExpFacts.
Import RegExp.

Create HintDb regexp.
#[local] Hint Constructors matches : regexp.

Lemma matches_seq r1 r2 s :
  matches (Seq r1 r2) s <->
  exists s1 s2, s = s1 ++ s2 /\ matches r1 s1 /\ matches r2 s2.
Proof.
  split.
  - inversion 1; subst. eauto.
  - intros (s1 & s2 & -> & H1 & H2). auto with regexp.
Qed.

Lemma nullable_matches r : nullable r = true <-> matches r [].
Proof.
  split.
  - induction r as [ | | p | r1 IH1 r2 IH2 | r1 IH1 r2 IH2 | r IH ]; simpl; intros H;
      try discriminate; auto with regexp.
    + apply andb_true_iff in H as [H1 H2].
      change (@nil N) with (@nil N ++ []). auto with regexp.
    + apply orb_true_iff in H as [H1 | H2]; auto with regexp.
  - remember (@nil N) as s eqn:Es. induction 1; simpl; try discriminate; auto.
    + apply app_eq_nil in Es as [-> ->]. rewrite IHmatches1, IHmatches2; auto.
    + rewrite IHmatches; auto.
    + rewrite IHmatches; auto. apply orb_true_r.
Qed.

Lemma matches_deriv_intro r s' :
  matches r s' -> forall c s, s' = c :: s -> matches (deriv c r) s.
Proof.
  induction 1 as [ | p x Hp | r1 r2 s1 s2 H1 IH1 H2 IH2 | r1 r2 s0 H1 IH1
                 | r1 r2 s0 H2 IH2 | r | r s1 s2 H1 IH1 H2 IH2 ];
    intros c s E; simpl.
  - discriminate.
  - injection E as -> <-. rewrite Hp. constructor.
  - destruct s1 as [ | x s1 ]; simpl in E.
    + apply nullable_matches in H1. rewrite H1. apply M_AltR. apply IH2. exact E.
    + injection E as -> <-.
      destruct (nullable r1); [ apply M_AltL | ]; constructor; auto.
  - apply M_AltL. auto.
  - apply M_AltR. auto.
  - discriminate.
  - destruct s1 as [ | x s1 ]; simpl in E.
    + apply (IH2 c s E).
    + injection E as -> <-. constructor; auto.
Qed.

Lemma matches_deriv_elim c r : forall s, matches (deriv c r) s -> matches r (c :: s).
Proof.
  induction r as [ | | p | r1 IH1 r2 IH2 | r1 IH1 r2 IH2 | r IH ]; simpl; intros s H.
  - inversion H.
  - inversion H.
  - destruct (p c) eqn:Hp; inversion H; subst. constructor. exact Hp.
  - destruct (nullable r1) eqn:Hn.
    + inversion H as [ | | | ? ? ? HL | ? ? ? HR | | ]; subst.
      * apply matches_seq in HL as (s1 & s2 & -> & H1 & H2).
        change (c :: s1 ++ s2) with ((c :: s1) ++ s2). auto with regexp.
      * change (c :: s) with ([] ++ c :: s). constructor; auto.
        apply nullable_matches. exact Hn.
    + apply matches_seq in H as (s1 & s2 & -> & H1 & H2).
      change (c :: s1 ++ s2) with ((c :: s1) ++ s2). auto with regexp.
  - inversion H; subst; auto with regexp.
  - apply matches_seq in H as (s1 & s2 & -> & H1 & H2).
    change (c :: s1 ++ s2) with ((c :: s1) ++ s2). auto with regexp.
Qed.

Lemma test_matches r s : test r s = true <-> matches r s.
Proof.
  unfold test. revert r. induction s as [ | c s IH ]; intros r; simpl.
  - apply nullable_matches.
  - rewrite IH. split.
    + apply matches_deriv_elim.
    + intros H. eapply matches_deriv_intro; [ exact H | reflexivity ].
Qed.

Lemma matches_star_class p s :
  matches (Star (Class p)) s <-> Forall (fun c => p c = true) s.
Proof.
  split.
  - remember (Star (Class p)) as r eqn:Er. induction 1; try discriminate.
    + constructor.
    + injection Er as ->. inversion H; subst. constructor; auto.
  - induction 1 as [ | c s Hc _ IH ]; [ constructor | ].
    change (c :: s) with ([c] ++ s). auto with regexp.
Qed.

Lemma matches_plus_class p s :
  matches (Plus (Class p)) s <-> s <> [] /\ Forall (fun c => p c = true) s.
Proof.
  unfold Plus. rewrite matches_seq. split.
  - intros (s1 & s2 & -> & H1 & H2). inversion H1; subst.
    apply matches_star_class in H2. split; [ discriminate | constructor; auto ].
  - intros [Hne Hall]. destruct Hall as [ | c s Hc Hs ]; [ congruence | ].
    exists [c], s. split; [ reflexivity | ]. split; [ auto with regexp | ].
    apply matches_star_class. exact Hs.
Qed.

Lemma matches_chr a s : matches (Chr a) s <-> s = [N_of_ascii a].
Proof.
  unfold Chr. split.
  - inversion 1; subst. f_equal. symmetry. apply N.eqb_eq. assumption.
  - intros ->. constructor. apply N.eqb_refl.
Qed.

End RegExpFacts.

(** ** Claims about the form *)

(** The characters the three parts of an address are made of. *)
Lemma emailRegex_shape s :
  RegExp.test emailRegex s = true <->
  exists a b c,
    s = a ++ str "@" ++ b ++ str "." ++ c /\
    (a <> [] /\ Forall (fun x => local_char x = true) a) /\
    (b <> [] /\ Forall (fun x => local_char x = true) b) /\
    (c <> [] /\ Forall (fun x => local_char x = true) c).
Proof.
  rewrite RegExpFacts.test_matches. unfold emailRegex.
  rewrite RegExpFacts.matches_seq. split.
  - intros (a & s1 & -> & Ha & H1).
    apply RegExpFacts.matches_seq in H1 as (at_ & s2 & -> & Hat & H2).
    apply RegExpFacts.matches_seq in H2 as (b & s3 & -> & Hb & H3).
    apply RegExpFacts.matches_seq in H3 as (dot & c & -> & Hdot & Hc).
    apply RegExpFacts.matches_chr in Hat, Hdot. subst at_ dot.
    apply RegExpFacts.matches_plus_class in Ha, Hb, Hc.
    exists a, b, c. repeat split; tauto.
  - intros (a & b & c & -> & Ha & Hb & Hc).
    apply RegExpFacts.matches_plus_class in Ha, Hb, Hc.
    exists a, (str "@" ++ b ++ str "." ++ c). split; [ reflexivity | ].
    split; [ exact Ha | ].
    apply RegExpFacts.matches_seq. exists (str "@"), (b ++ str "." ++ c).
    split; [ reflexivity | ]. split; [ apply RegExpFacts.matches_chr; reflexivity | ].
    apply RegExpFacts.matches_seq. exists b, (str "." ++ c).
    split; [ reflexivity | ]. split; [ exact Hb | ].
    apply RegExpFacts.matches_seq. exists (str "."), c.
    split; [ reflexivity | ]. split; [ apply RegExpFacts.matches_chr; reflexivity | exact Hc ].
Qed.

Section Validation.
Implicit Types (f : Field.t) (form : Form).

Lemma check_valid_iff f :
  fst (check f) = true <->
  (Field.required f = true -> trim (Field.value f) <> []) /\
  (Field.name f = "email" -> trim (Field.value f) <> [] ->
   RegExp.test emailRegex (trim (Field.value f)) = true) /\
  (Field.name f = "name" -> trim (Field.value f) <> [] ->
   (2 <= length (trim (Field.value f)))%nat) /\
  (Field.name f = "message" -> trim (Field.value f) <> [] ->
   (10 <= length (trim (Field.value f)))%nat).
Proof.
  unfold check. set (v := trim (Field.value f)).
  destruct (Field.required f);
    destruct (String.eqb_spec (Field.name f) "email") as [He | He];
    destruct (String.eqb_spec (Field.name f) "name") as [Hn | Hn];
    destruct (String.eqb_spec (Field.name f) "message") as [Hm | Hm];
    try (rewrite He in Hn; discriminate Hn);
    try (rewrite He in Hm; discriminate Hm);
    try (rewrite Hn in Hm; discriminate Hm);
    destruct v as [ | c v' ]; cbn [nonempty andb negb fst];
    try destruct (RegExp.test emailRegex (c :: v')) eqn:Ht;
    try destruct (Nat.ltb_spec (length (c :: v')) 2);
    try destruct (Nat.ltb_spec (length (c :: v')) 10);
    cbn [nonempty andb negb fst];
    (split; [ intros Hv; try discriminate Hv; repeat split; intros;
              first [ congruence | cbn [length] in *; lia ]
            | intros (R1 & R2 & R3 & R4);
              first [ reflexivity
                    | exfalso; apply R1; reflexivity
                    | exfalso; specialize (R2 ltac:(assumption) ltac:(discriminate)); discriminate R2
                    | exfalso; specialize (R3 ltac:(assumption) ltac:(discriminate)); lia
                    | exfalso; specialize (R4 ltac:(assumption) ltac:(discriminate)); lia ] ]).
Qed.

Lemma validateField_check i form f :
  inputs form !! i = Some f ->
  validateField i form = (fst (check f), showFieldError i (snd (check f)) form).
Proof.
  intros Hi. unfold validateField. rewrite Hi. destruct (check f). reflexivity.
Qed.

(** C7.  [validateField] answers what the rules give on the trimmed
    value: it passes exactly when a required field is not empty, an
    address matches the pattern, a name has at least 2 and a message at
    least 10 code units (the last three rules only on a non-empty
    value).  So a required field that is empty fails, and a required
    field without a rule of its own fails only then; the pattern is the
    shape local@domain.tld; "not-an-email" fails and "a@b.co" passes; a
    name of length 1 fails and of length 2 passes; a message of length 9
    fails and of length 10 passes. *)
Theorem validateField_boundaries :
  (forall form i f,
     inputs form !! i = Some f -> fst (validateField i form) = fst (check f)) /\
  (forall f,
     fst (check f) = true <->
     (Field.required f = true -> trim (Field.value f) <> []) /\
     (Field.name f = "email" -> trim (Field.value f) <> [] ->
      RegExp.test emailRegex (trim (Field.value f)) = true) /\
     (Field.name f = "name" -> trim (Field.value f) <> [] ->
      (2 <= length (trim (Field.value f)))%nat) /\
     (Field.name f = "message" -> trim (Field.value f) <> [] ->
      (10 <= length (trim (Field.value f)))%nat)) /\
  (forall f,
     Field.required f = true -> trim (Field.value f) = [] -> fst (check f) = false) /\
  (forall f,
     Field.name f <> "email" -> Field.name f <> "name" -> Field.name f <> "message" ->
     (fst (check f) = false <->
      Field.required f = true /\ trim (Field.value f) = [])) /\
  (forall s,
     RegExp.test emailRegex s = true <->
     exists a b c,
       s = a ++ str "@" ++ b ++ str "." ++ c /\
       (a <> [] /\ Forall (fun x => local_char x = true) a) /\
       (b <> [] /\ Forall (fun x => local_char x = true) b) /\
       (c <> [] /\ Forall (fun x => local_char x = true) c)) /\
  (forall r e,
     fst (check (Field.mk "email" (str "not-an-email") r e)) = false /\
     fst (check (Field.mk "email" (str "a@b.co") r e)) = true) /\
  (forall f,
     Field.name f = "name" ->
     (length (trim (Field.value f)) = 1%nat -> fst (check f) = false) /\
     ((2 <= length (trim (Field.value f)))%nat -> fst (check f) = true)) /\
  (forall f,
     Field.name f = "message" ->
     ((1 <= length (trim (Field.value f)) <= 9)%nat -> fst (check f) = false) /\
     ((10 <= length (trim (Field.value f)))%nat -> fst (check f) = true)).
Proof.
  assert (Hne : forall v : jsstring, (1 <= length v)%nat -> v <> []).
  { intros [ | c v ] Hlen; [ simpl in Hlen; lia | discriminate ]. }
  repeat apply conj.
  - intros form i f Hi. rewrite (validateField_check i form f Hi). reflexivity.
  - exact check_valid_iff.
  - intros f Hreq Hempty. apply not_true_is_false. rewrite check_valid_iff.
    intros (R1 & _). exact (R1 Hreq Hempty).
  - intros f He Hn Hm. rewrite <- not_true_iff_false, check_valid_iff. split.
    + intros Hnot. destruct (Field.required f) eqn:Hreq.
      * split; [ reflexivity | ].
        destruct (trim (Field.value f)) as [ | c v ]; [ reflexivity | ].
        exfalso. apply Hnot. repeat split; congruence.
      * exfalso. apply Hnot. repeat split; congruence.
    + intros [Hreq Hempty] (R1 & _). exact (R1 Hreq Hempty).
  - exact emailRegex_shape.
  - intros r e. split; destruct r; vm_compute; reflexivity.
  - intros f Hname. split.
    + intros Hlen. apply not_true_is_false. rewrite check_valid_iff.
      intros (_ & _ & R3 & _). assert (Hv : trim (Field.value f) <> []) by (apply Hne; lia).
      specialize (R3 Hname Hv). lia.
    + intros Hlen. apply check_valid_iff.
      repeat split; intros; first [ congruence | apply Hne; lia ].
  - intros f Hname. split.
    + intros Hlen. apply not_true_is_false. rewrite check_valid_iff.
      intros (_ & _ & _ & R4). assert (Hv : trim (Field.value f) <> []) by (apply Hne; lia).
      specialize (R4 Hname Hv). lia.
    + intros Hlen. apply check_valid_iff.
      repeat split; intros; first [ congruence | apply Hne; lia ].
Qed.

Lemma validateField_boundaries_witness :
  Field.name jo = "name" /\
  (2 <= length (trim (Field.value jo)))%nat /\
  fst (check jo) = true.
Proof.
  split; [ reflexivity | ]. split; [ vm_compute; lia | ].
  apply (proj2 (proj1 (proj2 (proj2 (proj2 (proj2 (proj2 (proj2
           validateField_boundaries)))))) jo eq_refl)).
  vm_compute. lia.
Defined.

End Validation.

(** ** The form as a whole *)

Section FormRun.
Implicit Types (f : Field.t) (form : Form) (e : ErrorElement).

Lemma check_set_error b f : check (set_error b f) = check f.
Proof. reflexivity. Qed.

Lemma required_message_nonempty l :
  String.eqb (l +:+ " is required.") EmptyString = false.
Proof. destruct l; reflexivity. Qed.

(** A field is valid exactly when its message is empty. *)
Lemma check_message f :
  String.eqb (snd (check f)) EmptyString = fst (check f).
Proof.
  unfold check.
  repeat match goal with
         | |- context [if ?b then _ else _] => destruct b
         end;
    cbn [fst snd]; rewrite ?required_message_nonempty; reflexivity.
Qed.

Lemma validateField_spec i form f :
  inputs form !! i = Some f ->
  validateField i form =
  (fst (check f),
   mkForm (<[i := set_error (negb (fst (check f))) f]> (inputs form))
          (alter (shown f) (error_id f) (byId form))).
Proof.
  intros Hi. rewrite (validateField_check i form f Hi). f_equal.
  unfold showFieldError, clearFieldError, shown. rewrite Hi, check_message.
  destruct (fst (check f)); reflexivity.
Qed.

Lemma forallb_agree {A} (F G : A -> bool) (l : list A) :
  (forall k, F k = G k) -> forallb F l = forallb G l.
Proof.
  intros H. induction l as [ | a l IH ]; cbn [forallb]; [ reflexivity | ].
  rewrite H, IH. reflexivity.
Qed.

Lemma run_inputs (idx : list nat) :
  forall acc form,
    (forall i, i ∈ idx -> is_Some (inputs form !! i)) -> NoDup idx ->
    fst (fold_left each_input idx (acc, form)) = acc && forallb (valid_at form) idx /\
    (forall j f,
       inputs form !! j = Some f ->
       inputs (snd (fold_left each_input idx (acc, form))) !! j =
       Some (if bool_decide (j ∈ idx) then set_error (negb (fst (check f))) f else f)) /\
    (forall x,
       (forall k f, k ∈ idx -> inputs form !! k = Some f -> error_id f <> x) ->
       byId (snd (fold_left each_input idx (acc, form))) !! x = byId form !! x) /\
    (forall j f,
       j ∈ idx -> inputs form !! j = Some f ->
       (forall k fk, k ∈ idx -> k <> j -> inputs form !! k = Some fk ->
                     error_id fk <> error_id f) ->
       byId (snd (fold_left each_input idx (acc, form))) !! error_id f =
       shown f <$> byId form !! error_id f).
Proof.
  induction idx as [ | i rest IH ]; intros acc form Hin Hnd.
  - cbn [fold_left fst snd forallb]. rewrite andb_true_r.
    repeat split; try reflexivity.
    + intros j f Hj. rewrite bool_decide_eq_false_2 by apply not_elem_of_nil. exact Hj.
    + intros j f Hj. apply elem_of_nil in Hj. contradiction.
  - destruct (Hin i ltac:(left)) as [fi Hi].
    apply NoDup_cons in Hnd as [Hi_rest Hnd].
    set (form1 := mkForm (<[i := set_error (negb (fst (check fi))) fi]> (inputs form))
                         (alter (shown fi) (error_id fi) (byId form))).
    set (acc1 := if negb (fst (check fi)) then false else acc).
    assert (Hstep : fold_left each_input (i :: rest) (acc, form) =
                    fold_left each_input rest (acc1, form1)).
    { cbn [fold_left]. unfold each_input at 2.
      rewrite (validateField_spec i form fi Hi). reflexivity. }
    rewrite Hstep. clear Hstep.
    assert (Hlook : forall k f1, inputs form1 !! k = Some f1 ->
              exists f0, inputs form !! k = Some f0 /\
                         f1 = (if decide (k = i) then set_error (negb (fst (check f0))) f0 else f0)).
    { intros k f1 Hk. cbn [inputs form1] in Hk. destruct (decide (k = i)) as [-> | Hne].
      - rewrite list_lookup_insert_eq in Hk by (eapply lookup_lt_Some; exact Hi).
        injection Hk as <-. exists fi. split; [ exact Hi | reflexivity ].
      - rewrite list_lookup_insert_ne in Hk by congruence.
        exists f1. split; [ exact Hk | reflexivity ]. }
    assert (Hsame : forall k f1, inputs form1 !! k = Some f1 ->
              exists f0, inputs form !! k = Some f0 /\
                         error_id f1 = error_id f0 /\ check f1 = check f0).
    { intros k f1 Hk. destruct (Hlook k f1 Hk) as (f0 & H0 & ->).
      exists f0. split; [ exact H0 | ]. destruct (decide (k = i)); split; reflexivity. }
    assert (Hkeep : forall k f0, inputs form !! k = Some f0 ->
              inputs form1 !! k =
              Some (if decide (k = i) then set_error (negb (fst (check f0))) f0 else f0)).
    { intros k f0 Hk. cbn [inputs form1]. destruct (decide (k = i)) as [-> | Hne].
      - rewrite list_lookup_insert_eq by (eapply lookup_lt_Some; exact Hi).
        rewrite Hi in Hk. injection Hk as <-. reflexivity.
      - rewrite list_lookup_insert_ne by congruence. exact Hk. }
    assert (Hin1 : forall k, k ∈ rest -> is_Some (inputs form1 !! k)).
    { intros k Hk. destruct (Hin k ltac:(right; exact Hk)) as [f0 H0].
      rewrite (Hkeep k f0 H0). eexists. reflexivity. }
    destruct (IH acc1 form1 Hin1 Hnd) as (IH1 & IH2 & IH3 & IH4).
    repeat apply conj.
    + rewrite IH1. cbn [forallb]. unfold valid_at at 2. rewrite Hi.
      assert (Hall : forallb (valid_at form1) rest = forallb (valid_at form) rest).
      { apply forallb_agree. intros k. unfold valid_at.
        destruct (inputs form !! k) as [f0 | ] eqn:H0.
        - rewrite (Hkeep k f0 H0). destruct (decide (k = i)); reflexivity.
        - destruct (inputs form1 !! k) as [f1 | ] eqn:H1; [ | reflexivity ].
          destruct (Hlook k f1 H1) as (f0 & H0' & _). congruence. }
      rewrite Hall. unfold acc1.
      destruct (fst (check fi)), acc; reflexivity.
    + intros j f Hj. rewrite (IH2 j _ (Hkeep j f Hj)).
      destruct (decide (j = i)) as [-> | Hne].
      * rewrite bool_decide_eq_false_2 by exact Hi_rest.
        rewrite bool_decide_eq_true_2 by left. reflexivity.
      * destruct (bool_decide (j ∈ rest)) eqn:Hb.
        -- apply bool_decide_eq_true_1 in Hb.
           rewrite bool_decide_eq_true_2 by (right; exact Hb). reflexivity.
        -- apply bool_decide_eq_false_1 in Hb.
           rewrite bool_decide_eq_false_2; [ reflexivity | ].
           intros Hmem. apply elem_of_cons in Hmem as [ | ]; [ congruence | tauto ].
    + intros x Hx. rewrite IH3.
      * cbn [byId form1]. apply lookup_alter_ne. apply (Hx i fi); [ left | exact Hi ].
      * intros k f1 Hk H1. destruct (Hsame k f1 H1) as (f0 & H0 & -> & _).
        apply (Hx k f0); [ right; exact Hk | exact H0 ].
    + intros j f Hj Hf Hothers. apply elem_of_cons in Hj as [-> | Hj].
      * rewrite Hi in Hf. injection Hf as <-. rewrite IH3.
        -- cbn [byId form1]. apply lookup_alter_eq.
        -- intros k f1 Hk H1. destruct (Hsame k f1 H1) as (f0 & H0 & -> & _).
           apply (Hothers k f0); [ right; exact Hk | | exact H0 ].
           intros ->. contradiction.
      * assert (Hne : j <> i) by (intros ->; contradiction).
        pose proof (Hkeep j f Hf) as Hf1. rewrite decide_False in Hf1 by exact Hne.
        rewrite (IH4 j f Hj Hf1).
        -- cbn [byId form1]. rewrite lookup_alter_ne; [ reflexivity | ].
           apply (Hothers i fi); [ left | congruence | exact Hi ].
        -- intros k f1 Hk Hkj H1. destruct (Hsame k f1 H1) as (f0 & H0 & -> & _).
           apply (Hothers k f0); [ right; exact Hk | exact Hkj | exact H0 ].
Qed.

Lemma required_from_spec l : forall k i,
  i ∈ required_from k l <->
  exists f, (k <= i)%nat /\ l !! (i - k)%nat = Some f /\ Field.required f = true.
Proof.
  induction l as [ | x r IH ]; intros k i; cbn [required_from].
  - split; [ intros H; apply elem_of_nil in H; contradiction | ].
    intros (f & _ & H & _). discriminate H.
  - assert (Htail : i ∈ required_from (S k) r <->
              exists f, (k < i)%nat /\ (x :: r) !! (i - k)%nat = Some f /\
                        Field.required f = true).
    { rewrite IH. split; intros (f & Hle & Hf & Hr); exists f.
      - split; [ lia | ]. split; [ | exact Hr ].
        replace (i - k)%nat with (S (i - S k)) by lia. exact Hf.
      - split; [ lia | ]. split; [ | exact Hr ].
        replace (i - k)%nat with (S (i - S k)) in Hf by lia. exact Hf. }
    destruct (Field.required x) eqn:Hx.
    + rewrite elem_of_cons, Htail. split.
      * intros [-> | (f & Hlt & Hf & Hr)].
        -- exists x. rewrite Nat.sub_diag. auto.
        -- exists f. split; [ lia | auto ].
      * intros (f & Hle & Hf & Hr). destruct (decide (i = k)) as [-> | Hne].
        -- left. reflexivity.
        -- right. exists f. split; [ lia | auto ].
    + rewrite Htail. split.
      * intros (f & Hlt & Hf & Hr). exists f. split; [ lia | auto ].
      * intros (f & Hle & Hf & Hr). destruct (decide (i = k)) as [-> | Hne].
        -- rewrite Nat.sub_diag in Hf. injection Hf as <-. congruence.
        -- exists f. split; [ lia | auto ].
Qed.

Lemma required_from_NoDup l : forall k, NoDup (required_from k l).
Proof.
  induction l as [ | x r IH ]; intros k; cbn [required_from]; [ constructor | ].
  destruct (Field.required x); [ | apply IH ].
  constructor; [ | apply IH ].
  rewrite required_from_spec. intros (f & Hle & _). lia.
Qed.

Lemma forallb_required l (G : Field.t -> bool) : forall k (F : nat -> bool),
  (forall n f, l !! n = Some f -> F (k + n)%nat = G f) ->
  forallb F (required_from k l) = forallb G (List.filter Field.required l).
Proof.
  induction l as [ | x r IH ]; intros k F HF; cbn [required_from List.filter];
    [ reflexivity | ].
  assert (Hr : forallb F (required_from (S k) r) = forallb G (List.filter Field.required r)).
  { apply IH. intros n f Hn. rewrite <- (HF (S n) f Hn). f_equal. lia. }
  destruct (Field.required x); [ | exact Hr ].
  cbn [forallb]. rewrite Hr, <- (HF 0%nat x eq_refl), Nat.add_0_r. reflexivity.
Qed.

Lemma distinct_error_ids (l : list Field.t) :
  NoDup (map error_id (List.filter Field.required l)) ->
  forall i j a b,
    l !! i = Some a -> l !! j = Some b ->
    Field.required a = true -> Field.required b = true ->
    i <> j -> error_id a <> error_id b.
Proof.
  induction l as [ | x r IH ]; intros Hnd i j a b Hi Hj Ha Hb Hij;
    [ discriminate Hi | ].
  assert (Hmem : forall n c, r !! n = Some c -> Field.required c = true ->
                   In (error_id c) (map error_id (List.filter Field.required r))).
  { intros n c Hn Hc. apply in_map, filter_In. split; [ | exact Hc ].
    apply list_elem_of_In, list_elem_of_lookup. exists n. exact Hn. }
  cbn [List.filter] in Hnd.
  destruct i as [ | i ], j as [ | j ]; cbn in Hi, Hj; try congruence.
  - injection Hi as ->. rewrite Ha in Hnd. cbn [map] in Hnd.
    apply NoDup_cons in Hnd as [Hx _]. intros E. apply Hx.
    rewrite E. apply list_elem_of_In. exact (Hmem j b Hj Hb).
  - injection Hj as ->. rewrite Hb in Hnd. cbn [map] in Hnd.
    apply NoDup_cons in Hnd as [Hx _]. intros E. apply Hx.
    rewrite <- E. apply list_elem_of_In. exact (Hmem i a Hi Ha).
  - apply (IH ltac:(destruct (Field.required x);
                    [ cbn [map] in Hnd; apply NoDup_cons in Hnd as [_ Hnd] | ];
                    exact Hnd) i j a b Hi Hj Ha Hb).
    congruence.
Qed.

(** C8.  [validateForm] answers the conjunction of [validateField] over
    every required field, and it does call [validateField] on each of
    them: afterwards every required field carries the error class
    exactly when it is invalid, the other fields are untouched, and,
    the required fields having error elements of their own, the error
    element of every invalid required field shows that field's
    message. *)
Theorem validateForm_checks_every_required_field (form : Form) :
  fst (validateForm form) =
    forallb (fun i => fst (validateField i form)) (required_inputs form) /\
  fst (validateForm form) =
    forallb (fun f => fst (check f)) (List.filter Field.required (inputs form)) /\
  (forall i f,
     inputs form !! i = Some f -> Field.required f = true ->
     inputs (snd (validateForm form)) !! i =
     Some (set_error (negb (fst (check f))) f)) /\
  (forall i f,
     inputs form !! i = Some f -> Field.required f = false ->
     inputs (snd (validateForm form)) !! i = Some f) /\
  (NoDup (map error_id (List.filter Field.required (inputs form))) ->
   forall i f e,
     inputs form !! i = Some f -> Field.required f = true ->
     byId form !! error_id f = Some e ->
     byId (snd (validateForm form)) !! error_id f = Some (shown f e) /\
     (fst (check f) = false ->
      byId (snd (validateForm form)) !! error_id f =
      Some (mkErrorElement (snd (check f)) true))).
Proof.
  assert (Hreq : forall i, i ∈ required_inputs form <->
            exists f, inputs form !! i = Some f /\ Field.required f = true).
  { intros i. unfold required_inputs. rewrite required_from_spec, Nat.sub_0_r.
    split; intros (f & H); exists f; [ tauto | ]. split; [ lia | tauto ]. }
  assert (Hin : forall i, i ∈ required_inputs form -> is_Some (inputs form !! i)).
  { intros i Hi. apply Hreq in Hi as (f & Hf & _). exists f. exact Hf. }
  destruct (run_inputs (required_inputs form) true form Hin
              (required_from_NoDup (inputs form) 0%nat)) as (R1 & R2 & R3 & R4).
  fold (validateForm form) in R1, R2, R3, R4.
  assert (Hvalid : forall i, valid_at form i = fst (validateField i form)).
  { intros i. unfold valid_at, validateField.
    destruct (inputs form !! i) as [f | ]; [ | reflexivity ].
    destruct (check f). reflexivity. }
  repeat apply conj.
  - rewrite R1. cbn [andb]. apply forallb_agree. exact Hvalid.
  - rewrite R1. cbn [andb]. unfold required_inputs. apply forallb_required.
    intros n f Hn. unfold valid_at. cbn [Nat.add]. rewrite Hn. reflexivity.
  - intros i f Hi Hr. rewrite (R2 i f Hi).
    rewrite bool_decide_eq_true_2; [ reflexivity | ].
    apply Hreq. exists f. split; assumption.
  - intros i f Hi Hr. rewrite (R2 i f Hi).
    rewrite bool_decide_eq_false_2; [ reflexivity | ].
    intros Hmem. apply Hreq in Hmem as (f' & Hf' & Hr'). congruence.
  - intros Hnd i f e Hi Hr He.
    assert (Hshown : byId (snd (validateForm form)) !! error_id f = Some (shown f e)).
    { rewrite (R4 i f); [ rewrite He; reflexivity | | exact Hi | ].
      - apply Hreq. exists f. split; assumption.
      - intros k fk Hk Hki Hfk. apply Hreq in Hk as (fk' & Hfk' & Hrk).
        rewrite Hfk in Hfk'. injection Hfk' as <-.
        apply (distinct_error_ids (inputs form) Hnd k i fk f); assumption. }
    split; [ exact Hshown | ].
    intros Hbad. rewrite Hshown. unfold shown. rewrite Hbad. reflexivity.
Qed.

Lemma validateForm_checks_every_required_field_witness :
  NoDup (map error_id (List.filter Field.required (inputs sample_form))) /\
  fst (validateForm sample_form) = false /\
  byId (snd (validateForm sample_form)) !! "email-error" =
    Some (mkErrorElement "Email is required." true).
Proof.
  assert (Hnd : NoDup (map error_id (List.filter Field.required (inputs sample_form)))).
  { vm_compute. repeat constructor; rewrite ?list_elem_of_In; cbn;
      intuition discriminate. }
  split; [ exact Hnd | ]. split; [ vm_compute; reflexivity | ].
  refine (proj2 (proj2 (proj2 (proj2 (proj2
            (validateForm_checks_every_required_field sample_form)))) Hnd
            2%nat (Field.mk "email" [] true false) (mkErrorElement EmptyString false)
            eq_refl eq_refl _) _); vm_compute; reflexivity.
Defined.

End FormRun.

(** * More of the script *)

Example a_visit :
  let w := run visit (DOMContentLoaded (mkWorld returning_state returning_storage (dom fresh_page))) in
  pairs (cart (state w)) =
    [ ("loyw3v284fzyo82mvyr", 2); ("loyw3v294fzyo82mvyr", 2); ("loyw3vu04fzyo82mvyr", 1) ] /\
  length (products (state w)) = 12%nat /\
  currentPage (state w) = 3 /\
  theme (state w) = "light" /\
  cartCount (dom w) = "5" /\
  state_init returning_storage = Started returning_state.
Proof. vm_compute. repeat split. Qed.

(** ** What a handler leaves alone *)

Section Frames.
Implicit Types (w : World) (e : Event) (p : Product.t).

Ltac world w := destruct w as [[th c ps ld pg] ls [dt ti cc tc btn grid]].

Lemma state_init_Started_inv m s :
  state_init m = Started s ->
  s = mkState (initial_theme m) (cart s) [] false 1 /\ initial_cart m = Some (cart s).
Proof.
  unfold state_init, initial_cart, initial_theme.
  destruct (JSON.parse _) as [v | ]; [ | discriminate ].
  destruct (as_cart _) as [c | ]; [ | discriminate ].
  intros [= <-]. split; reflexivity.
Qed.







(** [setTheme]: the three copies of the theme and the icon, nothing else. *)
Lemma setTheme_frame t w :
  localStorage (themeManager.setTheme t w) = <["theme" := t]> (localStorage w) /\
  state (themeManager.setTheme t w) = set_theme t (state w) /\
  cartCount (dom (themeManager.setTheme t w)) = cartCount (dom w) /\
  toastContainer (dom (themeManager.setTheme t w)) = toastContainer (dom w) /\
  loadMoreBtn (dom (themeManager.setTheme t w)) = loadMoreBtn (dom w) /\
  productsGrid (dom (themeManager.setTheme t w)) = productsGrid (dom w).
Proof. world w. unfold themeManager.setTheme. destruct ti; cbn; repeat split. Qed.

(** [addToCart]: the cart, its badge and its stored text, and a toast. *)
Lemma addToCart_frame p w :
  localStorage (addToCart p w) =
    <["cart" := JSON.stringify (cart_value (cart (state (addToCart p w))))]> (localStorage w) /\
  theme (state (addToCart p w)) = theme (state w) /\
  products (state (addToCart p w)) = products (state w) /\
  isLoading (state (addToCart p w)) = isLoading (state w) /\
  currentPage (state (addToCart p w)) = currentPage (state w) /\
  dataTheme (dom (addToCart p w)) = dataTheme (dom w) /\
  themeIcon (dom (addToCart p w)) = themeIcon (dom w) /\
  loadMoreBtn (dom (addToCart p w)) = loadMoreBtn (dom w) /\
  productsGrid (dom (addToCart p w)) = productsGrid (dom w) /\
  toastContainer (dom (addToCart p w)) =
    toastContainer (dom w) ++ [mkToast (Product.name p +:+ " added to cart") "success"].
Proof.
  unfold addToCart. destruct (list_find _ (cart (state w))) as [[i e] | ];
    world w; cbn; repeat split.
Qed.

(** The loader: the catalogue, the grid, the button, the flag and a
    toast; never the theme, the cart, the badge or the storage. *)
Lemma loadProducts_call_frame w :
  localStorage (loadProducts_call w) = localStorage w /\
  theme (state (loadProducts_call w)) = theme (state w) /\
  cart (state (loadProducts_call w)) = cart (state w) /\
  products (state (loadProducts_call w)) = products (state w) /\
  currentPage (state (loadProducts_call w)) = currentPage (state w) /\
  cartCount (dom (loadProducts_call w)) = cartCount (dom w) /\
  productsGrid (dom (loadProducts_call w)) = productsGrid (dom w) /\
  toastContainer (dom (loadProducts_call w)) = toastContainer (dom w).
Proof.
  unfold loadProducts_call, loadProducts_begin, showLoadingState.
  world w. cbn. destruct ld; [ repeat split | ]. destruct btn; cbn; repeat split.
Qed.

Lemma loadProducts_settle_frame r w :
  localStorage (loadProducts_settle r w) = localStorage w /\
  theme (state (loadProducts_settle r w)) = theme (state w) /\
  cart (state (loadProducts_settle r w)) = cart (state w) /\
  currentPage (state (loadProducts_settle r w)) = currentPage (state w) /\
  cartCount (dom (loadProducts_settle r w)) = cartCount (dom w) /\
  isLoading (state (loadProducts_settle r w)) = false.
Proof.
  unfold loadProducts_settle, updateLoadMoreButton, failed_toast, renderProducts,
    themeManager.showToast, hideLoadingState.
  world w. destruct r as [batch | ]; cbn.
  - destruct (2 <=? pg)%Z; destruct btn; cbn; repeat split.
  - destruct btn; cbn; repeat split.
Qed.

Lemma loadProducts_settle_catalogue r w :
  products (state (loadProducts_settle r w)) =
    products (state w) ++ match r with Resolved ps => ps | Rejected => [] end /\
  productsGrid (dom (loadProducts_settle r w)) =
    productsGrid (dom w) ++ match r with Resolved ps => ps | Rejected => [] end.
Proof.
  unfold loadProducts_settle, updateLoadMoreButton, failed_toast, renderProducts,
    themeManager.showToast, hideLoadingState.
  world w. destruct r as [batch | ]; cbn.
  - destruct (2 <=? pg)%Z; destruct btn; cbn; repeat split.
  - rewrite !app_nil_r. destruct btn; cbn; repeat split.
Qed.

End Frames.

(** ** Invariants of the running page *)

Section Invariants.
Implicit Types (w : World) (e : Event) (es : list Event).

Ltac world w := destruct w as [[th c ps ld pg] ls [dt ti cc tc btn grid]].

Lemma run_invariant (P : World -> Prop) :
  (forall w e, P w -> P (dispatch w e)) ->
  forall es w, P w -> P (run es w).
Proof.
  intros Hstep es. unfold run.
  induction es as [ | e es IH ]; intros w Hw; cbn [fold_left]; [ exact Hw | ].
  apply IH, Hstep, Hw.
Qed.

Lemma showToast_frame m t w :
  state (themeManager.showToast m t w) = state w /\
  localStorage (themeManager.showToast m t w) = localStorage w /\
  cartCount (dom (themeManager.showToast m t w)) = cartCount (dom w) /\
  loadMoreBtn (dom (themeManager.showToast m t w)) = loadMoreBtn (dom w) /\
  productsGrid (dom (themeManager.showToast m t w)) = productsGrid (dom w) /\
  toastContainer (dom (themeManager.showToast m t w)) =
    toastContainer (dom w) ++ [mkToast m t].
Proof. world w. cbn. repeat split. Qed.







(** *** The grid and the catalogue *)

Lemma grid_dispatch g0 w e :
  productsGrid (dom w) = g0 ++ products (state w) ->
  productsGrid (dom (dispatch w e)) = g0 ++ products (state (dispatch w e)).
Proof.
  intros H. unfold dispatch. destruct (enabled e w); [ | exact H ].
  destruct e as [ | p | | batch ]; cbn [handle].
  - unfold themeManager.themeToggle_click, themeManager.toggleTheme.
    destruct (showToast_frame "Theme changed" "success"
                (themeManager.setTheme
                   (if String.eqb (theme (state w)) "light" then "dark" else "light") w))
      as (Hs' & _ & _ & _ & Hg' & _).
    destruct (setTheme_frame
                (if String.eqb (theme (state w)) "light" then "dark" else "light") w)
      as (_ & Hst & _ & _ & _ & Hg).
    rewrite Hg', Hs', Hg, Hst. exact H.
  - destruct (addToCart_frame p w) as (_ & _ & Hp & _ & _ & _ & _ & _ & Hg & _).
    rewrite Hg, Hp. exact H.
  - destruct (loadProducts_call_frame
                (on_state (fun s => set_currentPage (currentPage s + 1) s) w))
      as (_ & _ & _ & Hp & _ & _ & Hg & _).
    rewrite Hg, Hp. exact H.
  - destruct (loadProducts_settle_catalogue (outcome batch) w) as (Hp & Hg).
    rewrite Hg, Hp, H, app_assoc. reflexivity.
Qed.

Lemma boot_catalogue storage d0 s :
  state_init storage = Started s ->
  products (state (DOMContentLoaded (mkWorld s storage d0))) = [] /\
  productsGrid (dom (DOMContentLoaded (mkWorld s storage d0))) = productsGrid d0 /\
  cartCount (dom (DOMContentLoaded (mkWorld s storage d0))) =
    number_toString (totalItems (cart (state (DOMContentLoaded (mkWorld s storage d0))))).
Proof.
  intros Hs. apply state_init_Started_inv in Hs as [Hs _].
  assert (Hnone : products s = []) by (rewrite Hs; reflexivity).
  unfold DOMContentLoaded, themeManager.init. cbn [state].
  destruct (setTheme_frame (theme s) (mkWorld s storage d0))
    as (_ & Hst & _ & _ & _ & Hg).
  destruct (loadProducts_call_frame (themeManager.setTheme (theme s) (mkWorld s storage d0)))
    as (_ & _ & Hc & Hp & _ & _ & Hg' & _).
  unfold updateCartCount, on_dom, set_cartCount. cbn [state dom productsGrid cartCount].
  rewrite Hp, Hg', Hg, Hst. cbn [state set_theme products]. repeat split. exact Hnone.
Qed.

(** X2.  The grid shows the catalogue: at every moment of a visit the
    cards of the grid are the cards the page came with followed by one
    card for every product of [state.products], in the same order, also
    after a failed load. *)
Theorem grid_shows_catalogue
    (storage : gmap string string) (d0 : Dom) (s : State) (es : list Event) :
  state_init storage = Started s ->
  productsGrid (dom (run es (DOMContentLoaded (mkWorld s storage d0)))) =
  productsGrid d0 ++ products (state (run es (DOMContentLoaded (mkWorld s storage d0)))).
Proof.
  intros Hs. apply (run_invariant _ (grid_dispatch (productsGrid d0))).
  destruct (boot_catalogue storage d0 s Hs) as (-> & -> & _).
  rewrite app_nil_r. reflexivity.
Qed.

Lemma grid_shows_catalogue_witness :
  state_init returning_storage = Started returning_state /\
  productsGrid (dom (run visit (DOMContentLoaded
     (mkWorld returning_state returning_storage (dom fresh_page))))) =
  fetchProducts sample_env ++ fetchProducts later_env.
Proof.
  assert (H : state_init returning_storage = Started returning_state)
    by (vm_compute; reflexivity).
  split; [ exact H | ].
  refine (eq_trans (grid_shows_catalogue returning_storage (dom fresh_page)
                      returning_state visit H) _).
  vm_compute. reflexivity.
Defined.

(** *** The badge *)




End Invariants.

(** ** The loader as a state machine *)

Section Loader.
Implicit Types (w : World) (e : Event) (es : list Event).

Ltac world w := destruct w as [[th c ps ld pg] ls [dt ti cc tc btn grid]].

Lemma loader_ok_same w w' :
  products (state w') = products (state w) ->
  currentPage (state w') = currentPage (state w) ->
  isLoading (state w') = isLoading (state w) ->
  loadMoreBtn (dom w') = loadMoreBtn (dom w) ->
  loader_ok w -> loader_ok w'.
Proof. unfold loader_ok. intros -> -> -> ->. exact (fun H => H). Qed.

Lemma loader_ok_dispatch w e : loader_ok w -> loader_ok (dispatch w e).
Proof.
  intros Hok. unfold dispatch. destruct (enabled e w) eqn:Hen; [ | exact Hok ].
  destruct e as [ | p | | batch ]; cbn [handle].
  - unfold themeManager.themeToggle_click, themeManager.toggleTheme.
    destruct (showToast_frame "Theme changed" "success"
                (themeManager.setTheme
                   (if String.eqb (theme (state w)) "light" then "dark" else "light") w))
      as (Hs' & _ & _ & Hb' & _).
    destruct (setTheme_frame
                (if String.eqb (theme (state w)) "light" then "dark" else "light") w)
      as (_ & Hst & _ & _ & Hb & _).
    apply (loader_ok_same w); [ | | | | exact Hok ];
      rewrite ?Hs', ?Hb', ?Hst, ?Hb; reflexivity.
  - destruct (addToCart_frame p w) as (_ & _ & Hp & Hl & Hpg & _ & _ & Hb & _).
    apply (loader_ok_same w); assumption.
  - world w. unfold loader_ok, loadProducts_call, loadProducts_begin, showLoadingState in *.
    cbn in Hen, Hok |- *.
    destruct btn as [[d t h] | ]; [ | discriminate Hen ].
    cbn in Hen, Hok. destruct d; [ discriminate Hen | ].
    destruct h; [ discriminate Hen | ].
    destruct Hok as (Hpg & Hd & Hshown & _). subst ld. cbn.
    destruct (Hshown eq_refl) as [Hn _].
    repeat split; try lia; try discriminate; try exact Hn.
  - world w. cbn in Hen. subst ld.
    unfold loader_ok, loadProducts_settle, updateLoadMoreButton, failed_toast,
      renderProducts, themeManager.showToast, hideLoadingState in *.
    cbn in Hok.
    destruct batch as [env | ]; cbn.
    + destruct (Z.leb_spec 2 pg) as [Hpage | Hpage];
        destruct btn as [[d t h] | ]; cbn in Hok |- *;
        rewrite ?length_app; cbn [length fetchProducts].
      * destruct Hok as (Hpg & Hd & Hshown & Hhidden).
        destruct h; [ destruct (Hhidden eq_refl); discriminate | ].
        destruct (Hshown eq_refl) as [Hn _].
        repeat split; try lia; try discriminate.
      * lia.
      * destruct Hok as (Hpg & Hd & Hshown & Hhidden).
        destruct h; [ destruct (Hhidden eq_refl); discriminate | ].
        destruct (Hshown eq_refl) as [_ Hn]. rewrite (Hn eq_refl ltac:(lia)).
        repeat split; try lia; try discriminate; try (right; reflexivity).
      * destruct Hok as (Hpg & _ & _ & Hn). rewrite (Hn eq_refl).
        repeat split; try lia; try discriminate; try (right; reflexivity).
    + destruct btn as [[d t h] | ]; cbn in Hok |- *.
      * destruct Hok as (Hpg & Hd & Hshown & Hhidden).
        destruct h; [ destruct (Hhidden eq_refl); discriminate | ].
        destruct (Hshown eq_refl) as [Hn _].
        repeat split; try lia; try discriminate; try exact Hn.
      * destruct Hok as (Hpg & Hone & Hn & _).
        repeat split; try lia; try discriminate; try assumption.
Qed.

Lemma loader_ok_boot storage d0 s :
  state_init storage = Started s ->
  (forall b, loadMoreBtn d0 = Some b -> hidden b = false) ->
  loader_ok (DOMContentLoaded (mkWorld s storage d0)).
Proof.
  intros Hs Hbtn. apply state_init_Started_inv in Hs as [-> _].
  destruct d0 as [dt ti cc tc btn grid]. cbn in Hbtn.
  unfold loader_ok, DOMContentLoaded, themeManager.init, themeManager.setTheme,
    loadProducts_call, loadProducts_begin, showLoadingState, updateCartCount.
  destruct btn as [[d t h] | ];
    [ specialize (Hbtn _ eq_refl); cbn in Hbtn; subst h | ];
    destruct ti; cbn;
    repeat split; try lia; try discriminate; auto.
Qed.

(** X4.  The catalogue is loaded at most twice.  On a page whose
    "load more" button is displayed at first (or that has none), at
    every moment of a visit [state.products] holds 0, 6 or 12 products,
    the button is disabled exactly while a fetch is awaited, and once
    the button is hidden no fetch is awaited and the catalogue does not
    grow any more. *)
Theorem catalogue_has_at_most_two_batches
    (storage : gmap string string) (d0 : Dom) (s : State) (es : list Event) :
  state_init storage = Started s ->
  (forall b, loadMoreBtn d0 = Some b -> hidden b = false) ->
  (exists k, (k <= 2)%nat /\
     length (products (state (run es (DOMContentLoaded (mkWorld s storage d0))))) =
     (6 * k)%nat) /\
  (forall b,
     loadMoreBtn (dom (run es (DOMContentLoaded (mkWorld s storage d0)))) = Some b ->
     disabled b = isLoading (state (run es (DOMContentLoaded (mkWorld s storage d0)))) /\
     (hidden b = true ->
      forall es',
        products (state (run es' (run es (DOMContentLoaded (mkWorld s storage d0))))) =
        products (state (run es (DOMContentLoaded (mkWorld s storage d0)))))).
Proof.
  intros Hs Hbtn.
  pose proof (run_invariant loader_ok loader_ok_dispatch es _
                (loader_ok_boot storage d0 s Hs Hbtn)) as Hok.
  set (w := run es (DOMContentLoaded (mkWorld s storage d0))) in *.
  split.
  - unfold loader_ok in Hok. destruct Hok as (_ & Hok).
    destruct (loadMoreBtn (dom w)) as [b | ].
    + destruct Hok as (_ & Hshown & Hhidden). destruct (hidden b).
      * destruct (Hhidden eq_refl) as (_ & [-> | ->]);
          [ exists 1%nat | exists 2%nat ]; split; lia.
      * destruct (Hshown eq_refl) as ([-> | ->] & _);
          [ exists 0%nat | exists 1%nat ]; split; lia.
    + destruct Hok as (_ & [-> | ->] & _);
        [ exists 0%nat | exists 1%nat ]; split; lia.
  - intros b Hb. split.
    + unfold loader_ok in Hok. rewrite Hb in Hok. tauto.
    + intros Hh es'.
      assert (Hfrozen : forall v,
                loader_ok v /\ loadMoreBtn (dom v) = Some b /\
                products (state v) = products (state w) ->
                forall e,
                loader_ok (dispatch v e) /\ loadMoreBtn (dom (dispatch v e)) = Some b /\
                products (state (dispatch v e)) = products (state w)).
      { intros v (Hv & Hvb & Hvp) e. split; [ apply loader_ok_dispatch, Hv | ].
        unfold dispatch. destruct (enabled e v) eqn:Hen; [ | split; assumption ].
        unfold loader_ok in Hv. rewrite Hvb in Hv.
        destruct Hv as (_ & Hd & _ & Hhidden). destruct (Hhidden Hh) as [Hidle _].
        destruct e as [ | p | | batch ]; cbn [handle].
        - unfold themeManager.themeToggle_click, themeManager.toggleTheme.
          destruct (showToast_frame "Theme changed" "success"
                      (themeManager.setTheme
                         (if String.eqb (theme (state v)) "light" then "dark" else "light") v))
            as (Hs' & _ & _ & Hb' & _).
          destruct (setTheme_frame
                      (if String.eqb (theme (state v)) "light" then "dark" else "light") v)
            as (_ & Hst & _ & _ & Hbb & _).
          rewrite Hs', Hb', Hst, Hbb. split; assumption.
        - destruct (addToCart_frame p v) as (_ & _ & Hp & _ & _ & _ & _ & Hbb & _).
          rewrite Hp, Hbb. split; assumption.
        - cbn in Hen. rewrite Hvb, Hh in Hen. rewrite andb_false_r in Hen. discriminate.
        - cbn in Hen. congruence. }
      unfold run at 1.
      assert (Hgoal : forall v,
                loader_ok v /\ loadMoreBtn (dom v) = Some b /\
                products (state v) = products (state w) ->
                products (state (fold_left dispatch es' v)) = products (state w)).
      { induction es' as [ | e es' IH ]; intros v Hv; cbn [fold_left].
        - apply Hv.
        - apply IH, Hfrozen, Hv. }
      apply Hgoal. split; [ exact Hok | ]. split; [ exact Hb | reflexivity ].
Qed.

Lemma catalogue_has_at_most_two_batches_witness :
  state_init returning_storage = Started returning_state /\
  (forall b, loadMoreBtn (dom fresh_page) = Some b -> hidden b = false) /\
  exists k, (k <= 2)%nat /\
    length (products (state (run visit (DOMContentLoaded
      (mkWorld returning_state returning_storage (dom fresh_page)))))) = (6 * k)%nat.
Proof.
  assert (H : state_init returning_storage = Started returning_state)
    by (vm_compute; reflexivity).
  assert (Hb : forall b, loadMoreBtn (dom fresh_page) = Some b -> hidden b = false).
  { intros b [= <-]. reflexivity. }
  split; [ exact H | ]. split; [ exact Hb | ].
  apply (catalogue_has_at_most_two_batches returning_storage (dom fresh_page)
           returning_state visit H Hb).
Defined.

End Loader.

(** ** More about the cart *)

Section CartContents.
Implicit Types (p : Product.t) (w : World) (c : list CartLineItem) (ps : list Product.t).

Lemma extends_refl c : extends c c.
Proof. intros i [it q] Hi. exists q. split; [ exact Hi | cbn; lia ]. Qed.

Lemma extends_trans c1 c2 c3 : extends c1 c2 -> extends c2 c3 -> extends c1 c3.
Proof.
  intros H12 H23 i it Hi.
  destruct (H12 i it Hi) as (q & Hq & Hle).
  destruct (H23 i _ Hq) as (q' & Hq' & Hle').
  exists q'. split; [ exact Hq' | cbn in Hle'; lia ].
Qed.

Lemma extends_addToCart p w : extends (cart (state w)) (cart (state (addToCart p w))).
Proof.
  rewrite cart_addToCart. intros k [it q] Hk.
  destruct (list_find _ (cart (state w))) as [[j e] | ] eqn:E.
  - apply list_find_Some in E as (Hj & _).
    destruct (decide (k = j)) as [-> | Hne].
    + rewrite Hj in Hk. injection Hk as ->.
      exists (q + 1). split; [ | cbn; lia ].
      apply list_lookup_insert_eq. eapply lookup_lt_Some; exact Hj.
    + exists q. split; [ | cbn; lia ].
      rewrite list_lookup_insert_ne by congruence. exact Hk.
  - exists q. split; [ | cbn; lia ]. apply lookup_app_l_Some. exact Hk.
Qed.

Lemma extends_dispatch w e : extends (cart (state w)) (cart (state (dispatch w e))).
Proof.
  unfold dispatch. destruct (enabled e w); [ | apply extends_refl ].
  destruct e as [ | p | | batch ]; cbn [handle].
  - unfold themeManager.themeToggle_click, themeManager.toggleTheme.
    destruct (setTheme_frame
                (if String.eqb (theme (state w)) "light" then "dark" else "light") w)
      as (_ & Hst & _).
    change (cart (state (themeManager.showToast "Theme changed" "success"
              (themeManager.setTheme
                 (if String.eqb (theme (state w)) "light" then "dark" else "light") w))))
      with (cart (state (themeManager.setTheme
                 (if String.eqb (theme (state w)) "light" then "dark" else "light") w))).
    rewrite Hst. apply extends_refl.
  - apply extends_addToCart.
  - destruct (loadProducts_call_frame
                (on_state (fun s => set_currentPage (currentPage s + 1) s) w))
      as (_ & _ & -> & _).
    apply extends_refl.
  - destruct (loadProducts_settle_frame (outcome batch) w) as (_ & _ & -> & _).
    apply extends_refl.
Qed.

(** X5.  The script never removes a line item, never moves one and never
    lowers a quantity: whatever events are dispatched, every line item
    of the cart is afterwards at the same position with the same product
    fields and a quantity at least as large. *)
Theorem cart_only_grows (es : list Event) (w : World) :
  extends (cart (state w)) (cart (state (run es w))).
Proof.
  unfold run. revert w. induction es as [ | e es IH ]; intros w; cbn [fold_left].
  - apply extends_refl.
  - eapply extends_trans; [ apply extends_dispatch | apply IH ].
Qed.

(** *** The cart after a sequence of clicks *)

Lemma adds_snoc ps p w : adds (ps ++ [p]) w = addToCart p (adds ps w).
Proof. unfold adds. rewrite fold_left_app. reflexivity. Qed.

Lemma elem_of_rev {A} (x : A) (l : list A) : x ∈ rev l <-> x ∈ l.
Proof. rewrite !list_elem_of_In. symmetry. apply in_rev. Qed.

Lemma first_ids_snoc ps p :
  first_ids (ps ++ [p]) =
  if decide (Product.id p ∈ first_ids ps) then first_ids ps
  else first_ids ps ++ [Product.id p].
Proof.
  unfold first_ids. rewrite map_app, rev_app_distr. cbn [map rev app remove_dups].
  destruct (decide_rel elem_of (Product.id p) (rev (map Product.id ps))) as [Hin | Hout].
  - rewrite decide_True; [ reflexivity | ].
    rewrite elem_of_rev, elem_of_remove_dups. exact Hin.
  - rewrite decide_False; [ reflexivity | ].
    rewrite elem_of_rev, elem_of_remove_dups. exact Hout.
Qed.

Lemma first_ids_NoDup ps : NoDup (first_ids ps).
Proof.
  unfold first_ids. apply NoDup_ListNoDup, NoDup_rev, NoDup_ListNoDup, NoDup_remove_dups.
Qed.

Lemma occurrences_snoc i ps p :
  occurrences i (ps ++ [p]) =
  (occurrences i ps + if String.eqb (Product.id p) i then 1 else 0)%nat.
Proof.
  unfold occurrences. rewrite List.filter_app, length_app. cbn [List.filter].
  destruct (String.eqb (Product.id p) i); reflexivity.
Qed.

Lemma first_with_snoc i ps p :
  first_with i (ps ++ [p]) =
  match first_with i ps with
  | Some x => Some x
  | None => if String.eqb (Product.id p) i then Some p else None
  end.
Proof.
  unfold first_with. induction ps as [ | x ps IH ]; cbn [app List.find].
  - reflexivity.
  - destruct (String.eqb (Product.id x) i); [ reflexivity | exact IH ].
Qed.

Lemma not_first_id i ps :
  i ∉ first_ids ps -> first_with i ps = None /\ occurrences i ps = 0%nat.
Proof.
  induction ps as [ | p ps IH ] using rev_ind; [ split; reflexivity | ].
  rewrite first_ids_snoc, first_with_snoc, occurrences_snoc.
  destruct (decide (Product.id p ∈ first_ids ps)) as [Hin | Hout]; intros Hi.
  - destruct (IH Hi) as [-> ->].
    destruct (String.eqb_spec (Product.id p) i) as [<- | _]; [ contradiction | ].
    split; reflexivity.
  - rewrite elem_of_app, list_elem_of_singleton in Hi.
    destruct (IH ltac:(tauto)) as [-> ->].
    destruct (String.eqb_spec (Product.id p) i) as [<- | _]; [ tauto | ].
    split; reflexivity.
Qed.

Lemma tallies_addToCart ps p w :
  tallies ps (cart (state w)) -> tallies (ps ++ [p]) (cart (state (addToCart p w))).
Proof.
  intros [Hids Hitems]. rewrite cart_addToCart.
  destruct (list_find _ (cart (state w))) as [[j e] | ] eqn:E.
  - apply list_find_Some in E as (Hj & He & _).
    assert (Hin : Product.id p ∈ first_ids ps).
    { rewrite <- Hids, <- He. apply list_elem_of_In, in_map, list_elem_of_In.
      apply list_elem_of_lookup. exists j. exact Hj. }
    split.
    + rewrite first_ids_snoc, decide_True by exact Hin.
      rewrite (ids_insert _ _ e); [ exact Hids | exact Hj | reflexivity ].
    + intros k it Hk. rewrite first_with_snoc, occurrences_snoc.
      destruct (decide (k = j)) as [-> | Hne].
      * rewrite list_lookup_insert_eq in Hk by (eapply lookup_lt_Some; exact Hj).
        injection Hk as <-. destruct (Hitems j e Hj) as [Hfirst Hq].
        change (item_id (mkItem (item e) (quantity e + 1))) with (item_id e).
        rewrite Hfirst, He, String.eqb_refl. cbn [item quantity].
        split; [ reflexivity | ]. rewrite <- He. lia.
      * rewrite list_lookup_insert_ne in Hk by congruence.
        destruct (Hitems k it Hk) as [Hfirst Hq]. rewrite Hfirst.
        split; [ reflexivity | ].
        destruct (String.eqb_spec (Product.id p) (item_id it)) as [Hsame | _]; [ | lia ].
        exfalso. apply Hne.
        pose proof (first_ids_NoDup ps) as Hnd. rewrite <- Hids in Hnd.
        change (map item_id (cart (state w))) with (item_id <$> cart (state w)) in Hnd.
        apply (NoDup_lookup _ k j (item_id it) Hnd).
        -- rewrite list_lookup_fmap, Hk. reflexivity.
        -- rewrite list_lookup_fmap, Hj. cbn. congruence.
  - assert (Hout : Product.id p ∉ first_ids ps).
    { rewrite <- Hids. intros Hin.
      apply list_elem_of_In, in_map_iff in Hin as (it & Hid & Hit).
      rewrite list_find_None, Forall_forall in E.
      apply (E it); [ apply list_elem_of_In; exact Hit | exact Hid ]. }
    destruct (not_first_id _ _ Hout) as [Hnone Hzero].
    split.
    + rewrite first_ids_snoc, decide_False by exact Hout.
      rewrite map_app, Hids. reflexivity.
    + intros k it Hk. rewrite first_with_snoc, occurrences_snoc.
      apply lookup_app_Some in Hk as [Hk | [_ Hk]].
      * destruct (Hitems k it Hk) as [Hfirst Hq]. rewrite Hfirst.
        split; [ reflexivity | ].
        destruct (String.eqb_spec (Product.id p) (item_id it)) as [Hsame | _]; [ | lia ].
        exfalso. apply Hout. rewrite Hsame, <- Hids.
        apply list_elem_of_In, in_map, list_elem_of_In, list_elem_of_lookup.
        exists k. exact Hk.
      * destruct (k - length (cart (state w)))%nat; [ | discriminate Hk ].
        injection Hk as <-.
        change (item_id (mkItem p 1)) with (Product.id p).
        rewrite Hnone, Hzero, String.eqb_refl. split; reflexivity.
Qed.

(** X6.  After any sequence of clicks on "add to cart" from the empty
    cart, the cart lists the identifiers in the order in which they were
    first added; every line item carries the fields of the product that
    was added first under its identifier, and its quantity is the number
    of clicks on products with that identifier. *)
Theorem cart_tallies_the_clicks (ps : list Product.t) (w : World) :
  cart (state w) = [] ->
  map item_id (cart (state (adds ps w))) = first_ids ps /\
  forall k it,
    cart (state (adds ps w)) !! k = Some it ->
    first_with (item_id it) ps = Some (item it) /\
    quantity it = Z.of_nat (occurrences (item_id it) ps).
Proof.
  intros Hempty. change (tallies ps (cart (state (adds ps w)))).
  induction ps as [ | p ps IH ] using rev_ind.
  - unfold adds. cbn [fold_left]. rewrite Hempty. split; [ reflexivity | ].
    intros k it Hk. discriminate Hk.
  - rewrite adds_snoc. apply tallies_addToCart, IH.
Qed.

Lemma cart_tallies_the_clicks_witness :
  cart (state fresh_page) = [] /\
  map item_id (cart (state (adds [runner; walker; runner] fresh_page))) =
    [ "loyw3v284fzyo82mvyr"; "loyw3v294fzyo82mvyr" ].
Proof.
  split; [ reflexivity | ].
  refine (eq_trans (proj1 (cart_tallies_the_clicks [runner; walker; runner] fresh_page
                             eq_refl)) _).
  vm_compute. reflexivity.
Defined.

End CartContents.

(** ** More about the theme *)

Section ThemeMore.
Import themeManager.
Implicit Types (w : World) (p : Product.t).

Ltac world w := destruct w as [[th c ps ld pg] ls [dt ti cc tc btn grid]].

(** X7.  The theme and the cart do not interfere: adding a product and
    toggling the theme give the same world in either order (state,
    storage and document). *)
Theorem addToCart_toggleTheme_commute (p : Product.t) (w : World) :
  addToCart p (toggleTheme w) = toggleTheme (addToCart p w).
Proof.
  world w.
  cbv [toggleTheme setTheme addToCart updateCartCount saveCart showToast setItem
       on_state on_dom state cart theme dom themeIcon localStorage set_theme set_cart
       set_dataTheme set_themeIcon set_cartCount set_toastContainer products isLoading
       currentPage dataTheme cartCount toastContainer loadMoreBtn productsGrid].
  destruct ti; destruct (list_find _ c) as [[i e] | ];
    cbv [toggleTheme setTheme addToCart updateCartCount saveCart showToast setItem
         on_state on_dom state cart theme dom themeIcon localStorage set_theme set_cart
         set_dataTheme set_themeIcon set_cartCount set_toastContainer products isLoading
         currentPage dataTheme cartCount toastContainer loadMoreBtn productsGrid];
    f_equal; apply insert_insert_ne; discriminate.
Qed.

Lemma toggleTheme_theme w :
  theme (state (toggleTheme w)) =
  if String.eqb (theme (state w)) "light" then "dark" else "light".
Proof. unfold toggleTheme. apply setTheme_applied. Qed.

(** X8.  [toggleTheme] accepts any current value: the theme it sets is
    [dark] when the current one is [light] and [light] otherwise, so
    after one toggle the theme is one of the two, three toggles leave
    the world as one toggle does, and from a stored value that is
    neither [light] nor [dark] two toggles do not give that value back
    (they end in [dark]). *)
Theorem toggleTheme_from_any_value :
  (forall w,
     theme (state (toggleTheme w)) = "light" \/ theme (state (toggleTheme w)) = "dark") /\
  (forall w, toggleTheme (toggleTheme (toggleTheme w)) = toggleTheme w) /\
  (forall w,
     theme (state w) <> "light" -> theme (state w) <> "dark" ->
     theme (state (toggleTheme (toggleTheme w))) = "dark" /\
     theme (state (toggleTheme (toggleTheme w))) <> theme (state w)).
Proof.
  split; [ | split ].
  - intros w. rewrite toggleTheme_theme. destruct (String.eqb _ _); auto.
  - intros w. world w.
    cbv [toggleTheme setTheme setItem on_state on_dom state theme dom themeIcon
         localStorage set_theme set_dataTheme set_themeIcon cart products isLoading
         currentPage dataTheme cartCount toastContainer loadMoreBtn productsGrid].
    destruct (String.eqb th "light"); destruct ti;
      change (String.eqb "dark" "light") with false;
      change (String.eqb "light" "light") with true;
      change (String.eqb "dark" "dark") with true;
      change (String.eqb "light" "dark") with false;
      cbv iota; rewrite !insert_insert_eq; reflexivity.
  - intros w Hl Hd. rewrite !toggleTheme_theme.
    destruct (String.eqb_spec (theme (state w)) "light") as [E | _]; [ contradiction | ].
    cbn. split; [ reflexivity | congruence ].
Qed.

Lemma toggleTheme_from_any_value_witness :
  theme (state (on_state (set_theme "sepia") fresh_page)) <> "light" /\
  theme (state (on_state (set_theme "sepia") fresh_page)) <> "dark" /\
  theme (state (toggleTheme (toggleTheme (on_state (set_theme "sepia") fresh_page)))) = "dark".
Proof.
  assert (H1 : theme (state (on_state (set_theme "sepia") fresh_page)) <> "light")
    by (cbn; discriminate).
  assert (H2 : theme (state (on_state (set_theme "sepia") fresh_page)) <> "dark")
    by (cbn; discriminate).
  split; [ exact H1 | ]. split; [ exact H2 | ].
  apply (proj2 (proj2 toggleTheme_from_any_value) _ H1 H2).
Defined.

End ThemeMore.

(** ** More about the form *)

Section FormMore.
Implicit Types (f : Field.t) (form : Form) (v : jsstring).

Lemma trimStart_white v : Forall (fun x => white_space x = true) v -> trimStart v = [].
Proof. induction 1 as [ | x v Hx _ IH ]; cbn [trimStart]; [ | rewrite Hx ]; auto. Qed.

Lemma trimStart_pad a v :
  Forall (fun x => white_space x = true) a -> trimStart (a ++ v) = trimStart v.
Proof. induction 1 as [ | x a Hx _ IH ]; cbn [trimStart app]; [ | rewrite Hx ]; auto. Qed.

Lemma trimStart_nil_white v : trimStart v = [] -> Forall (fun x => white_space x = true) v.
Proof.
  induction v as [ | x v IH ]; cbn [trimStart]; [ constructor | ].
  destruct (white_space x) eqn:Hx; [ | discriminate ]. auto.
Qed.

Lemma trimStart_app v b : trimStart v <> [] -> trimStart (v ++ b) = trimStart v ++ b.
Proof.
  induction v as [ | x v IH ]; cbn [trimStart app]; [ congruence | ].
  destruct (white_space x); [ exact IH | reflexivity ].
Qed.

Lemma trimEnd_pad v b :
  Forall (fun x => white_space x = true) b -> trimEnd (v ++ b) = trimEnd v.
Proof.
  intros Hb. unfold trimEnd. rewrite rev_app_distr, trimStart_pad; [ reflexivity | ].
  apply Forall_forall. intros x Hx. rewrite Forall_forall in Hb. apply Hb.
  apply elem_of_rev. exact Hx.
Qed.

Lemma trim_pad a v b :
  Forall (fun x => white_space x = true) a ->
  Forall (fun x => white_space x = true) b ->
  trim (a ++ v ++ b) = trim v.
Proof.
  intros Ha Hb. unfold trim. rewrite (trimStart_pad a _ Ha).
  destruct (trimStart v) as [ | x t ] eqn:E.
  - apply trimStart_nil_white in E.
    rewrite trimStart_white; [ reflexivity | ].
    apply Forall_app. split; assumption.
  - rewrite trimStart_app by congruence. rewrite E. apply trimEnd_pad, Hb.
Qed.

(** X9.  White space around a value does not count: padding the value of
    a field on either side with white space (blanks, tabs, line breaks,
    no-break spaces, ...) changes neither the verdict nor the message of
    [validateField]. *)
Theorem validation_ignores_padding (f : Field.t) (a b : jsstring) :
  Forall (fun x => white_space x = true) a ->
  Forall (fun x => white_space x = true) b ->
  check (set_value (a ++ Field.value f ++ b) f) = check f.
Proof.
  intros Ha Hb. unfold check. cbn [set_value Field.value Field.name Field.required].
  rewrite (trim_pad a (Field.value f) b Ha Hb). reflexivity.
Qed.

Lemma validation_ignores_padding_witness :
  Forall (fun x => white_space x = true) [9%N; 32%N; 160%N] /\
  Forall (fun x => white_space x = true) [10%N] /\
  check (set_value ([9%N; 32%N; 160%N] ++ Field.value jo ++ [10%N]) jo) = (true, EmptyString).
Proof.
  assert (Ha : Forall (fun x => white_space x = true) [9%N; 32%N; 160%N])
    by (repeat constructor).
  assert (Hb : Forall (fun x => white_space x = true) [10%N]) by (repeat constructor).
  split; [ exact Ha | ]. split; [ exact Hb | ].
  refine (eq_trans (validation_ignores_padding jo _ _ Ha Hb) _).
  vm_compute. reflexivity.
Defined.

(** *** What an accepted address looks like *)

Lemma local_char_spec x :
  local_char x = true -> white_space x = false /\ x <> 64%N /\ True.
Proof.
  unfold local_char. rewrite negb_true_iff, orb_false_iff. intros [Hw Hat].
  split; [ exact Hw | ]. split; [ | exact I ]. apply N.eqb_neq. exact Hat.
Qed.

Lemma count_at_local (a : jsstring) :
  Forall (fun x => local_char x = true) a -> count_occ N.eq_dec a 64%N = 0%nat.
Proof.
  induction 1 as [ | x a Hx _ IH ]; [ reflexivity | ].
  destruct (local_char_spec x Hx) as (_ & Hne & _).
  rewrite count_occ_cons_neq by exact Hne. exact IH.
Qed.

Lemma white_local (a : jsstring) :
  Forall (fun x => local_char x = true) a -> Forall (fun x => white_space x = false) a.
Proof.
  intros H. eapply Forall_impl; [ exact H | ].
  intros x Hx. apply (local_char_spec x Hx).
Qed.

(** X10.  An address that passes the pattern has exactly one [@], no
    white space at all, at least five code units, and neither begins
    with [@] nor ends right after it. *)
Theorem accepted_address (s : jsstring) :
  RegExp.test emailRegex s = true ->
  count_occ N.eq_dec s 64%N = 1%nat /\
  Forall (fun x => white_space x = false) s /\
  (5 <= length s)%nat /\
  (forall t, s <> 64%N :: t) /\
  (forall t, s <> t ++ [64%N]).
Proof.
  intros H. apply emailRegex_shape in H
    as (a & b & c & -> & (Ha & Hla) & (Hb & Hlb) & (Hc & Hlc)).
  change (str "@") with [64%N]. change (str ".") with [46%N].
  repeat apply conj.
  - rewrite !count_occ_app, (count_at_local a Hla), (count_at_local b Hlb),
      (count_at_local c Hlc). reflexivity.
  - apply white_local in Hla, Hlb, Hlc.
    repeat (apply Forall_app; split); try assumption; repeat constructor.
  - rewrite !length_app. cbn [length].
    destruct a, b, c; try congruence; cbn [length]; lia.
  - intros t E. destruct a as [ | x a ]; [ congruence | ].
    injection E as -> _. inversion Hla as [ | ? ? Hx _ ]; subst.
    destruct (local_char_spec _ Hx) as (_ & Hne & _). congruence.
  - intros t E.
    destruct (exists_last Hc) as (c' & x & ->).
    rewrite !app_assoc in E. apply app_inj_tail in E as [_ ->].
    apply Forall_app in Hlc as [_ Hx]. inversion Hx as [ | ? ? Hx' _ ]; subst.
    destruct (local_char_spec _ Hx') as (_ & Hne & _). congruence.
Qed.

Lemma accepted_address_witness :
  RegExp.test emailRegex (str "jo@example.org") = true /\
  count_occ N.eq_dec (str "jo@example.org") 64%N = 1%nat.
Proof.
  assert (H : RegExp.test emailRegex (str "jo@example.org") = true)
    by (vm_compute; reflexivity).
  split; [ exact H | ]. apply (accepted_address _ H).
Defined.

End FormMore.

(** ** Submitting the form *)

Section Submit.
Implicit Types (f : Field.t) (form : Form) (cp : ContactPage).

Lemma map_insert_same {A B} (g : A -> B) (l : list A) : forall i x y,
  l !! i = Some x -> g y = g x -> map g (<[i := y]> l) = map g l.
Proof.
  induction l as [ | a l IH ]; intros [ | i ] x y Hi Hg; try discriminate Hi.
  - injection Hi as ->. cbn. rewrite Hg. reflexivity.
  - cbn. f_equal. apply (IH i x y Hi Hg).
Qed.

Lemma validateField_values i form :
  map Field.value (inputs (snd (validateField i form))) = map Field.value (inputs form).
Proof.
  unfold validateField. destruct (inputs form !! i) as [f | ] eqn:Hi; [ | reflexivity ].
  destruct (check f) as [ok msg]. cbn [snd].
  unfold showFieldError, clearFieldError. rewrite Hi.
  destruct (negb (String.eqb msg EmptyString)); cbn [inputs];
    apply (map_insert_same Field.value _ i f); [ exact Hi | | exact Hi | ]; reflexivity.
Qed.

Lemma each_input_values (idx : list nat) : forall acc form,
  map Field.value (inputs (snd (fold_left each_input idx (acc, form)))) =
  map Field.value (inputs form).
Proof.
  induction idx as [ | i rest IH ]; intros acc form; [ reflexivity | ].
  cbn [fold_left]. unfold each_input at 2.
  pose proof (validateField_values i form) as Hv.
  destruct (validateField i form) as [ok form']. cbn [snd] in Hv.
  rewrite IH. exact Hv.
Qed.

Lemma validateForm_values form :
  map Field.value (inputs (snd (validateForm form))) = map Field.value (inputs form).
Proof. apply each_input_values. Qed.

Lemma required_inputs_spec form i :
  i ∈ required_inputs form <->
  exists f, inputs form !! i = Some f /\ Field.required f = true.
Proof.
  unfold required_inputs. rewrite required_from_spec, Nat.sub_0_r.
  split; intros (f & H); exists f; [ tauto | ]. split; [ lia | tauto ].
Qed.

Lemma validateForm_run form :
  fst (validateForm form) =
    forallb (fun f => fst (check f)) (List.filter Field.required (inputs form)) /\
  forall j f,
    inputs form !! j = Some f ->
    inputs (snd (validateForm form)) !! j =
    Some (if Field.required f then set_error (negb (fst (check f))) f else f).
Proof.
  assert (Hin : forall i, i ∈ required_inputs form -> is_Some (inputs form !! i)).
  { intros i Hi. apply required_inputs_spec in Hi as (f & Hf & _). exists f. exact Hf. }
  destruct (run_inputs (required_inputs form) true form Hin
              (required_from_NoDup (inputs form) 0%nat)) as (R1 & R2 & _).
  fold (validateForm form) in R1, R2. split.
  - rewrite R1. cbn [andb]. unfold required_inputs. apply forallb_required.
    intros n f Hn. unfold valid_at. cbn [Nat.add]. rewrite Hn. reflexivity.
  - intros j f Hj. rewrite (R2 j f Hj). destruct (Field.required f) eqn:Hr.
    + rewrite bool_decide_eq_true_2; [ reflexivity | ].
      apply required_inputs_spec. exists f. split; assumption.
    + rewrite bool_decide_eq_false_2; [ reflexivity | ].
      intros Hmem. apply required_inputs_spec in Hmem as (f' & Hf' & Hr'). congruence.
Qed.

Lemma validateForm_false form i f :
  inputs form !! i = Some f -> Field.required f = true -> fst (check f) = false ->
  fst (validateForm form) = false.
Proof.
  intros Hi Hr Hbad. rewrite (proj1 (validateForm_run form)).
  apply not_true_is_false. intros Hall. rewrite forallb_forall in Hall.
  rewrite (Hall f) in Hbad; [ discriminate | ].
  apply filter_In. split; [ | exact Hr ].
  apply list_elem_of_In, list_elem_of_lookup. exists i. exact Hi.
Qed.

Lemma validateForm_true form :
  (forall i f, inputs form !! i = Some f -> Field.required f = true ->
               fst (check f) = true) ->
  fst (validateForm form) = true.
Proof.
  intros Hall. rewrite (proj1 (validateForm_run form)). apply forallb_forall.
  intros f Hf. apply filter_In in Hf as [Hf Hr].
  apply list_elem_of_In, list_elem_of_lookup in Hf as [i Hi]. apply (Hall i f Hi Hr).
Qed.



(** X11.  A form with an invalid required field is not sent: the submit
    event ends in [handleFormSubmit], which shows one toast of type
    [error] however many fields are wrong, marks the field, and leaves
    the values typed so far, the submit button, the state and the
    storage as they were. *)
Theorem invalid_form_is_not_sent cp (i : nat) f :
  inputs (contactForm cp) !! i = Some f ->
  Field.required f = true ->
  fst (check f) = false ->
  snd (handleFormSubmit cp) = NotSent /\
  submit_event cp = fst (handleFormSubmit cp) /\
  inputs (contactForm (submit_event cp)) !! i = Some (set_error true f) /\
  map Field.value (inputs (contactForm (submit_event cp))) =
    map Field.value (inputs (contactForm cp)) /\
  submitButton (submit_event cp) = submitButton cp /\
  world (submit_event cp) =
    themeManager.showToast "Please fix the errors and try again." "error" (world cp).
Proof.
  intros Hi Hr Hbad.
  pose proof (validateForm_false _ i f Hi Hr Hbad) as Hv.
  pose proof (proj2 (validateForm_run (contactForm cp)) i f Hi) as Hf.
  pose proof (validateForm_values (contactForm cp)) as Hvals.
  unfold submit_event, handleFormSubmit.
  destruct (validateForm (contactForm cp)) as [ok form]. cbn [fst snd] in *. subst ok.
  cbn [fst snd contactForm submitButton world].
  rewrite Hr, Hbad in Hf. repeat split; assumption.
Qed.

Lemma invalid_form_is_not_sent_witness :
  snd (handleFormSubmit (contact_page sample_form)) = NotSent /\
  toastContainer (dom (world (submit_event (contact_page sample_form)))) =
    [mkToast "Please fix the errors and try again." "error"].
Proof.
  pose (f := Field.mk "name" (str "J") true false).
  assert (Hi : inputs (contactForm (contact_page sample_form)) !! 0%nat = Some f)
    by reflexivity.
  assert (Hr : Field.required f = true) by reflexivity.
  assert (Hbad : fst (check f) = false) by (vm_compute; reflexivity).
  destruct (invalid_form_is_not_sent _ 0%nat f Hi Hr Hbad) as (H1 & _ & _ & _ & _ & H6).
  split; [ exact H1 | ]. rewrite H6. reflexivity.
Defined.



(** X13.  A valid form on a page whose form has no submit button is
    never sent and never reset: [submitForm] throws before its [try]
    block, so neither of its own toasts is shown, and what the visitor
    sees is the toast of the [unhandledrejection] listener, which
    blames the network. *)
Theorem submit_without_button cp :
  (forall i f, inputs (contactForm cp) !! i = Some f -> Field.required f = true ->
               fst (check f) = true) ->
  submitButton cp = None ->
  snd (handleFormSubmit cp) = Thrown /\
  world (fst (handleFormSubmit cp)) = world cp /\
  map Field.value (inputs (contactForm (submit_event cp))) =
    map Field.value (inputs (contactForm cp)) /\
  submitButton (submit_event cp) = None /\
  state (world (submit_event cp)) = state (world cp) /\
  localStorage (world (submit_event cp)) = localStorage (world cp) /\
  toastContainer (dom (world (submit_event cp))) =
    toastContainer (dom (world cp)) ++
    [mkToast "A network error occurred. Please check your connection." "error"].
Proof.
  intros Hall Hb.
  pose proof (validateForm_true _ Hall) as Hv.
  pose proof (validateForm_values (contactForm cp)) as Hvals.
  unfold submit_event, handleFormSubmit.
  destruct (validateForm (contactForm cp)) as [ok form]. cbn [fst snd] in *. subst ok.
  unfold submitForm_begin. cbn [submitButton contactForm defaultValues world].
  rewrite Hb. cbn [fst snd submitButton contactForm defaultValues world].
  unfold unhandledrejection.
  destruct (showToast_frame "A network error occurred. Please check your connection."
              "error" (world cp)) as (Hs & Hl & _ & _ & _ & Ht).
  repeat apply conj; try reflexivity; assumption.
Qed.

Lemma submit_without_button_witness :
  snd (handleFormSubmit (mkContactPage filled_form [] None fresh_page)) = Thrown /\
  toastContainer (dom (world (submit_event (mkContactPage filled_form [] None fresh_page)))) =
    [mkToast "A network error occurred. Please check your connection." "error"].
Proof.
  assert (Hall : forall i f,
            inputs (contactForm (mkContactPage filled_form [] None fresh_page)) !! i = Some f ->
            Field.required f = true -> fst (check f) = true).
  { intros [ | [ | [ | [ | i ] ] ] ] f Hf Hr; cbn in Hf; try discriminate Hf;
      injection Hf as <-; try discriminate Hr; vm_compute; reflexivity. }
  destruct (submit_without_button (mkContactPage filled_form [] None fresh_page) Hall eq_refl)
    as (H1 & _ & _ & _ & _ & _ & H7).
  split; [ exact H1 | ]. rewrite H7. reflexivity.
Defined.

End Submit.

(** ** The rate limiters *)

Example scrolling_throttled :
  throttle.applied (throttle.run 100 scrolling (throttle.start 0)) =
  [ (0, "a"); (110, "d"); (460, "e") ].
Proof. vm_compute. reflexivity. Qed.

Example scrolling_debounced :
  debounce.applied (debounce.run 300 scrolling (debounce.start 0)) = [ (460, "d") ].
Proof. vm_compute. reflexivity. Qed.

Section Limiters.
Context {A : Type}.
Implicit Types (es : list (Tick A)) (e : Tick A).

Lemma clock_snoc es : forall t e,
  clock t (es ++ [e]) =
  match e with Wait d => clock t es + Z.of_N d | _ => clock t es end.
Proof.
  induction es as [ | x r IH ]; intros t e.
  - destruct e; reflexivity.
  - destruct x; cbn [app clock]; apply IH.
Qed.

Lemma invocations_snoc es : forall t e,
  invocations t (es ++ [e]) =
  match e with
  | Invoke args => invocations t es ++ [(clock t es, args)]
  | _ => invocations t es
  end.
Proof.
  induction es as [ | x r IH ]; intros t e.
  - destruct e; reflexivity.
  - destruct x; cbn [app clock invocations]; rewrite IH; destruct e; reflexivity.
Qed.

Lemma throttled_ok_run (limit t0 : Z) es :
  throttled_ok limit t0 es (throttle.run limit es (throttle.start t0)).
Proof.
  induction es as [ | e es IH ] using rev_ind.
  - cbv [throttled_ok throttle.run throttle.start fold_left throttle.now throttle.applied
         throttle.inThrottle throttle.timers clock invocations last].
    repeat split; try constructor. intros i c1 c2 H. destruct i; discriminate H.
  - unfold throttle.run in *. rewrite fold_left_app. cbn [fold_left].
    set (s := fold_left (throttle.step limit) es (throttle.start t0)) in *.
    destruct IH as (Hnow & Hsub & Hsp & Hlast).
    unfold throttled_ok. rewrite clock_snoc, invocations_snoc.
    destruct e as [ d | args | ].
    + cbn [throttle.step throttle.now throttle.applied throttle.inThrottle throttle.timers].
      repeat apply conj; try assumption; [ congruence | ].
      destruct (last (throttle.applied s)) as [ c | ]; [ | exact Hlast ].
      destruct Hlast as (Hh & Hle & Ht). repeat apply conj; [ exact Hh | lia | ].
      destruct (throttle.inThrottle s); [ exact Ht | ]. split; [ tauto | lia ].
    + cbn [throttle.step]. unfold throttle.call.
      destruct (throttle.inThrottle s) eqn:Hin.
      * repeat apply conj; try assumption.
        -- apply sublist_inserts_r. exact Hsub.
        -- destruct (last (throttle.applied s)) as [ c | ] eqn:Hl;
             [ | destruct Hlast; congruence ].
           destruct Hlast as (Hh & Hle & Ht). rewrite Hin.
           repeat apply conj; try assumption.
           rewrite Hh. destruct (invocations t0 es) eqn:Hinv; [ | reflexivity ].
           apply sublist_nil_r in Hsub. rewrite Hsub in Hl. discriminate Hl.
      * cbn [throttle.now throttle.applied throttle.inThrottle throttle.timers].
        rewrite last_snoc. cbn [fst].
        assert (Htimers : throttle.timers s = []).
        { destruct (last (throttle.applied s)); [ | tauto ].
          destruct Hlast as (_ & _ & Ht). tauto. }
        repeat apply conj.
        -- exact Hnow.
        -- rewrite <- Hnow. apply sublist_app; [ exact Hsub | reflexivity ].
        -- intros i c1 c2 H1 H2.
           destruct (decide (S i < length (throttle.applied s))%nat) as [ Hlt | Hge ].
           ++ rewrite lookup_app_l in H1 by lia. rewrite lookup_app_l in H2 by lia.
              apply (Hsp i c1 c2 H1 H2).
           ++ pose proof (lookup_lt_Some _ _ _ H2) as Hb. rewrite length_app in Hb.
              cbn [length] in Hb.
              assert (Hi : S i = length (throttle.applied s)) by lia.
              rewrite lookup_app_l in H1 by lia.
              rewrite lookup_app_r in H2 by lia.
              replace (S i - length (throttle.applied s))%nat with 0%nat in H2 by lia.
              injection H2 as <-. cbn [fst].
              rewrite last_lookup in Hlast.
              replace (pred (length (throttle.applied s))) with i in Hlast by lia.
              rewrite H1 in Hlast. lia.
        -- destruct (last (throttle.applied s)) as [ c | ] eqn:Hl.
           ++ destruct Hlast as (Hh & _).
              destruct (throttle.applied s) as [ | a l ]; [ discriminate Hl | ].
              cbn [app head] in *. rewrite Hh.
              destruct (invocations t0 es); [ discriminate Hh | reflexivity ].
           ++ destruct Hlast as (_ & _ & Hinv). rewrite Hinv.
              apply last_None in Hl. rewrite Hl, Hnow. reflexivity.
        -- lia.
        -- rewrite Htimers. reflexivity.
    + cbn [throttle.step].
      destruct (throttle.timers s) as [ | due rest ] eqn:Ht.
      { cbv iota. repeat apply conj; try assumption. rewrite Ht. exact Hlast. }
      destruct (last (throttle.applied s)) as [ c | ] eqn:Hl;
        [ | destruct Hlast as (_ & Hnil & _); congruence ].
      destruct Hlast as (Hh & Hle & Hrest).
      destruct (throttle.inThrottle s) eqn:Hin; [ | destruct Hrest; congruence ].
      injection Hrest as -> ->.
      destruct (Z.leb_spec (c.1 + Z.max 0 limit) (throttle.now s)) as [ Hdue | Hnot ].
      * cbn [throttle.timer throttle.now throttle.applied throttle.inThrottle throttle.timers].
        rewrite Hl. repeat apply conj; try assumption; reflexivity.
      * rewrite Hl, Hin, Ht. repeat apply conj; try assumption; reflexivity.
Qed.

(** X14.  A throttled function runs at the first call, on the
    arguments of calls only and in their order, never twice within
    [limit] milliseconds, and never later on behalf of a call that came
    too early: such a call is dropped.  The wrapper has one timer
    pending while it refuses calls and none otherwise. *)
Theorem throttle_spaces_the_calls (limit t0 : Z) es :
  sublist (throttle.applied (throttle.run limit es (throttle.start t0)))
          (invocations t0 es) /\
  head (throttle.applied (throttle.run limit es (throttle.start t0))) =
    head (invocations t0 es) /\
  (forall i c1 c2,
     throttle.applied (throttle.run limit es (throttle.start t0)) !! i = Some c1 ->
     throttle.applied (throttle.run limit es (throttle.start t0)) !! S i = Some c2 ->
     c1.1 + Z.max 0 limit <= c2.1) /\
  length (throttle.timers (throttle.run limit es (throttle.start t0))) =
    (if throttle.inThrottle (throttle.run limit es (throttle.start t0))
     then 1 else 0)%nat /\
  forall args,
    throttle.inThrottle (throttle.run limit es (throttle.start t0)) = true ->
    throttle.applied (throttle.run limit (es ++ [Invoke args; Wait (Z.to_N limit); Fire])
                        (throttle.start t0)) =
    throttle.applied (throttle.run limit es (throttle.start t0)).
Proof.
  destruct (throttled_ok_run limit t0 es) as (Hnow & Hsub & Hsp & Hlast).
  set (s := throttle.run limit es (throttle.start t0)) in *.
  repeat apply conj.
  - exact Hsub.
  - destruct (last (throttle.applied s)) as [ c | ] eqn:Hl.
    + tauto.
    + apply last_None in Hl. rewrite Hl.
      destruct Hlast as (_ & _ & ->). reflexivity.
  - exact Hsp.
  - destruct (last (throttle.applied s)) as [ c | ].
    + destruct Hlast as (_ & _ & Ht). destruct (throttle.inThrottle s).
      * rewrite Ht. reflexivity.
      * destruct Ht as [-> _]. reflexivity.
    + destruct Hlast as (-> & -> & _). reflexivity.
  - intros args Hin. unfold throttle.run. rewrite fold_left_app. fold (throttle.run limit es (throttle.start t0)).
    fold s. cbn [fold_left throttle.step]. unfold throttle.call. rewrite Hin.
    cbn [throttle.now throttle.applied throttle.inThrottle throttle.timers].
    destruct (throttle.timers s) as [ | due rest ]; [ reflexivity | ].
    destruct (due <=? _)%Z; reflexivity.
Qed.




End Limiters.

(** ** The mobile menu and the hearts *)

Section Menu.
Implicit Types (m : Menu) (e : MenuEvent) (es : list MenuEvent).

Lemma since_closed_open es : existsb closes es = false -> since_closed es = es.
Proof.
  induction es as [ | e r IH ]; [ reflexivity | ].
  cbn [existsb since_closed]. intros H. apply orb_false_iff in H as [He Hr].
  rewrite Hr, He. reflexivity.
Qed.

Lemma menu_listener_closes m e :
  closes e = true -> navMenu_active (menu_listener m e) = false.
Proof.
  destruct e as [ | [ | ] | | | ]; cbn; try discriminate; try reflexivity.
  destruct (navMenu_active m) eqn:Ha; auto.
Qed.

Lemma menu_consistent_kept m e :
  menu_consistent m -> menu_consistent (menu_listener m e).
Proof.
  assert (Hopen : menu_consistent (navigation.openMobileMenu m)) by (repeat split).
  assert (Hclose : menu_consistent (navigation.closeMobileMenu m)) by (repeat split).
  intros Hm. destruct e as [ | [ | ] | | | ]; cbn [menu_listener]; try assumption.
  - unfold navigation.toggleMobileMenu. destruct (navMenu_active m); assumption.
  - destruct (navMenu_active m); assumption.
Qed.

Lemma menu_consistent_written m e :
  writes_marks e = true -> menu_consistent (menu_listener m e).
Proof.
  assert (Hopen : menu_consistent (navigation.openMobileMenu m)) by (repeat split).
  assert (Hclose : menu_consistent (navigation.closeMobileMenu m)) by (repeat split).
  destruct e as [ | [ | ] | | | ]; cbn [menu_listener writes_marks];
    try discriminate; intros _; try assumption.
  unfold navigation.toggleMobileMenu. destruct (navMenu_active m); assumption.
Qed.

Lemma menu_consistent_run es : forall m,
  menu_consistent m -> menu_consistent (fold_left menu_listener es m).
Proof.
  induction es as [ | e r IH ]; intros m Hm; [ exact Hm | ].
  cbn [fold_left]. apply IH, menu_consistent_kept, Hm.
Qed.

(** X16.  The marks of the mobile menu agree with each other after any
    events, provided they agreed in the markup or one of the events was
    a click on the toggle, the key Escape, Shift+Tab on the first link
    or a click on a link whose target exists: the class of the toggle,
    [aria-expanded] and the scroll lock of the body all follow the class
    of the menu. *)
Theorem menu_marks_agree es m :
  menu_consistent m \/ existsb writes_marks es = true ->
  menu_consistent (fold_left menu_listener es m).
Proof.
  revert m. induction es as [ | e r IH ]; intros m [ Hm | Hw ].
  - exact Hm.
  - discriminate Hw.
  - apply menu_consistent_run, Hm.
  - cbn [existsb] in Hw. cbn [fold_left].
    destruct (writes_marks e) eqn:He.
    + apply menu_consistent_run, menu_consistent_written, He.
    + apply IH. right. exact Hw.
Qed.

Lemma menu_marks_agree_witness :
  menu_consistent
    (fold_left menu_listener [OutsideClick; MenuToggleClick; NavLinkClick false]
       (mkMenu false true None "scroll")).
Proof.
  apply (menu_marks_agree [OutsideClick; MenuToggleClick; NavLinkClick false]
           (mkMenu false true None "scroll")).
  right. reflexivity.
Defined.

(** X17.  Whether the menu is open is a matter of the clicks on the
    toggle since the last event that closed it (a click outside, Escape,
    Shift+Tab on the first link, a link whose target exists), or since
    the page was loaded when there was none.  It is open exactly when
    their number is odd; only when nothing has closed it and the page
    began with the menu open is it the other way round. *)
Theorem menu_open_by_parity es : forall m,
  navMenu_active (fold_left menu_listener es m) =
  xorb (if existsb closes es then false else navMenu_active m)
       (Nat.odd (toggle_clicks (since_closed es))).
Proof.
  induction es as [ | e r IH ]; intros m.
  - cbn. rewrite xorb_false_r. reflexivity.
  - cbn [fold_left existsb since_closed]. rewrite IH.
    destruct (existsb closes r) eqn:Hr.
    + rewrite orb_true_r. reflexivity.
    + rewrite orb_false_r, (since_closed_open r Hr).
      destruct (closes e) eqn:He.
      * rewrite (menu_listener_closes m e He). reflexivity.
      * destruct e as [ | [ | ] | | | ]; try discriminate He.
        -- unfold toggle_clicks. cbn [menu_listener List.filter is_toggle length].
           rewrite Nat.odd_succ, <- Nat.negb_odd.
           unfold navigation.toggleMobileMenu. clear IH.
           destruct (navMenu_active m);
             cbn [navMenu_active navigation.closeMobileMenu navigation.openMobileMenu];
             destruct (Nat.odd (length (List.filter is_toggle r))); reflexivity.
        -- reflexivity.
Qed.

End Menu.

Section Hearts.

(** X18.  The heart of a card after [n] clicks: it is marked exactly
    when it was not and [n] is odd, or was and [n] is even; once clicked
    its text follows the mark; every click shows one toast; and no click
    reaches the state or the storage, so a reload forgets the
    favourites. *)
Theorem favorites_are_not_kept (n : nat) : forall productId button w,
  favorited (fst (favorite_clicks n productId (button, w))) =
    xorb (favorited button) (Nat.odd n) /\
  (n <> 0%nat ->
   favorite_text (fst (favorite_clicks n productId (button, w))) =
     if favorited (fst (favorite_clicks n productId (button, w))) then "❤️" else "♥") /\
  length (toastContainer (dom (snd (favorite_clicks n productId (button, w))))) =
    (length (toastContainer (dom w)) + n)%nat /\
  state (snd (favorite_clicks n productId (button, w))) = state w /\
  localStorage (snd (favorite_clicks n productId (button, w))) = localStorage w.
Proof.
  induction n as [ | n IH ]; intros productId button w.
  - cbn [favorite_clicks fst snd]. rewrite xorb_false_r, Nat.add_0_r.
    repeat split. congruence.
  - cbn [favorite_clicks fst snd].
    destruct (toggleFavorite productId button w) as [b1 w1] eqn:Hstep.
    destruct (IH productId b1 w1) as (Hf & Ht & Hn & Hs & Hl).
    assert (Hb : favorited b1 = negb (favorited button) /\
                 favorite_text b1 = (if favorited b1 then "❤️" else "♥") /\
                 length (toastContainer (dom w1)) = S (length (toastContainer (dom w))) /\
                 state w1 = state w /\ localStorage w1 = localStorage w).
    { unfold toggleFavorite in Hstep.
      destruct (favorited button); injection Hstep as <- <-; cbn [favorited favorite_text negb];
        match goal with
        | |- context [themeManager.showToast ?m ?t w] =>
            destruct (showToast_frame m t w) as (Hs' & Hl' & _ & _ & _ & Ht')
        end;
        rewrite Hs', Hl', Ht', length_app; cbn [length];
        repeat split; lia. }
    destruct Hb as (Hb1 & Hb2 & Hb3 & Hb4 & Hb5).
    repeat apply conj.
    + rewrite Hf, Hb1, Nat.odd_succ, <- Nat.negb_odd.
      destruct (favorited button), (Nat.odd n); reflexivity.
    + intros _. destruct n as [ | n' ].
      * cbn [favorite_clicks fst]. exact Hb2.
      * apply Ht. discriminate.
    + rewrite Hn, Hb3. lia.
    + rewrite Hs. exact Hb4.
    + rewrite Hl. exact Hb5.
Qed.

End Hearts.
